(** * LEV longevity trajectory: the simulation engine of [src/lev_math.ts]

    A shallow embedding of the engine over the real numbers.  Every
    TypeScript [number] that carries a quantity (a year, a score, a
    probability, a hazard) is a real [R]; [Math.exp], [Math.log],
    [Math.sqrt], [Math.max], [Math.min] are [exp], [ln], [sqrt], [Rmax],
    [Rmin].  Loop counters and array indices that the code keeps integral
    (ages of the life table, the age counter of the cohort loop) are [Z].
    Arrays are lists, [push] appends at the end.  Rounding error of IEEE
    doubles is outside this model: all statements are about the exact
    real-valued formulas. *)

From Stdlib Require Import Reals Lra Lia ZArith List Bool.
From Stdlib Require String.
Import ListNotations.
Open Scope R_scope.

(** ** Comparisons and JavaScript helpers *)

Definition Rltb (x y : R) : bool := if Rlt_dec x y then true else false.
Definition Rleb (x y : R) : bool := if Rle_dec x y then true else false.
Definition Rgtb (x y : R) : bool := Rltb y x.
Definition Rgeb (x y : R) : bool := Rleb y x.

(** [Math.floor] and [Math.round] (round half up, i.e. [floor (x + 0.5)]). *)
Definition js_floor (x : R) : Z := Int_part x.
Definition js_round (x : R) : Z := Int_part (x + 0.5).

(** [arr[i]] for an integer index: [undefined] ([None]) out of range. *)
Definition js_index {A : Type} (arr : list A) (i : Z) : option A :=
  if (i <? 0)%Z then None else nth_error arr (Z.to_nat i).

(** [a ?? d] *)
Definition orElse {A : Type} (a : option A) (d : A) : A :=
  match a with Some v => v | None => d end.

(** [arr[arr.length - 1]] *)
Definition js_last {A : Type} (arr : list A) : option A :=
  nth_error arr (length arr - 1).

(** [arr.reduce((acc, val) => acc + val, 0)] *)
Definition Rsum (l : list R) : R := fold_left Rplus l 0.

(** ** 0. Constants & Config *)

Definition MAX_AGE_INTERNAL : Z := 200.
Definition HEALTH_MIDPOINT_BIOAGE : R := 72.
Definition HEALTH_STEEPNESS : R := 9.
Definition HEALTHSPAN_THRESHOLD : R := 0.70.
Definition PROGRESS_RATE_BASE : R := 0.018.
Definition PROGRESS_SIGMA0 : R := 0.030.
Definition UPTAKE_SIGMOID_WIDTH : R := 0.12.
Definition FRAILTY_A : R := 0.65.
Definition LEV_K : R := ln 4 / 5.
Definition LEV_MEDIAN_95 : R := 2040.
Definition LEV_LAG_50_VS_95 : R := 10.
Definition OPTIMISM_YEAR_SHIFT_PER_STEP : R := 3.
Definition REJUV_TAU : R := 6.
Definition REJUV_EXTRA : R := 0.20.

(** Quantile z-scores: the finite table [Z_SCORES], [?? 0] for other keys. *)
Definition Z_SCORES (c : R) : option R :=
  if Req_dec_T c 5 then Some (-1.644853626)
  else if Req_dec_T c 25 then Some (-0.674489750)
  else if Req_dec_T c 50 then Some 0
  else if Req_dec_T c 75 then Some 0.674489750
  else if Req_dec_T c 95 then Some 1.644853626
  else None.

Definition getZScoreForCentile (c : R) : R := orElse (Z_SCORES c) 0.

(** ** 1. Utilities *)

Definition sigmoid (x : R) : R := 1 / (1 + exp (- x)).

Definition qToH (q : R) : R :=
  if Rgeb q 1 then 100 else - ln (1 - q).

Definition hToQ (h : R) : R := 1 - exp (- h).

(** ** 2. Core model functions *)

Definition getFrailtyMultiplier (score : R) : R :=
  let p := score / 100 in
  exp (FRAILTY_A * (0.5 - p)).

Definition getUptakeFactor (p : R) : R :=
  0.6 + 0.8 * sigmoid ((p - 0.5) / UPTAKE_SIGMOID_WIDTH).

Definition optimismFactoryLimited (opt : R) : R :=
  Rmax (-1) (Rmin 1 (opt * 0.1)).

Definition getProgressMultiplier
    (year score quantileKey optimism horizonYear currentYear : R) : R :=
  let p := score / 100 in
  let yH := horizonYear in
  let elapsedYears := Rmax 0 (Rmin year yH - currentYear) in
  if Rleb elapsedYears 0 then 1.0
  else if Rleb optimism (-10) then 1.0
  else
    let optimismFactor := optimism * 0.1 in
    let k := PROGRESS_RATE_BASE * (1 + optimismFactor) in
    let u_p := getUptakeFactor p in
    let mu := - k * elapsedYears * u_p in
    let sigma := PROGRESS_SIGMA0 * sqrt elapsedYears
                 * (1 - 0.1 * optimismFactoryLimited optimism) in
    let z_q := getZScoreForCentile quantileKey in
    let r := exp (mu + z_q * sigma) in
    Rmin 1.20 (Rmax 0.01 r).

(** ** 6. LEV parameters and PMF *)

Record LevParams : Type := mkLevParams {
  medianYear : R;
  probMass : list R   (* index 0 = currentYear *)
}.

(** The adoption lag [shift] computed from [targetScore]. *)
Definition levShift (targetScore : R) : R :=
  if Rgeb targetScore 95 then 0
  else if Rgeb targetScore 75 then
    let t := (targetScore - 75) / (95 - 75) in
    9 * (1 - t)
  else if Rgeb targetScore 50 then
    let t := (targetScore - 50) / (75 - 50) in
    15 - (15 - 9) * t
  else
    let s := Rmax 1 targetScore in
    let t := (s - 1) / (50 - 1) in
    60 - (60 - 15) * t.

(** [speedFactor], with its floor against division by zero. *)
Definition levSpeedFactor (optimism : R) : R :=
  let speedFactor := 1 + 0.1 * optimism in
  if Rleb speedFactor 0.01 then 0.001 else speedFactor.

Definition levBaseDelay95 (currentYear : R) : R :=
  Rmax 0 (LEV_MEDIAN_95 - currentYear).

(** The logistic CDF of the LEV arrival year, [1 / (1 + exp(-K (t - m)))]. *)
Definition levCdf (t m : R) : R := 1 / (1 + exp (- LEV_K * (t - m))).

(** The loop [for (y = currentYear; y <= maxEvalYear; y++)]: [fuel] bounds
    the number of iterations, the guard is the loop's own. *)
Fixpoint pmfLoop (fuel : nat) (y maxEvalYear m : R) : list R :=
  match fuel with
  | O => []
  | S fuel' =>
      if Rleb y maxEvalYear then
        let cdfCurrent := levCdf y m in
        let cdfPrev := levCdf (y - 1) m in
        (cdfCurrent - cdfPrev) :: pmfLoop fuel' (y + 1) maxEvalYear m
      else []
  end.

(** More iterations than the guard [y <= currentYear + 120] ever admits
    when [y] starts at [currentYear] and grows by one. *)
Definition PMF_FUEL : nat := 128.

Definition computeLevDistribution (targetScore optimism currentYear : R)
  : LevParams :=
  if Rleb optimism (-10) then mkLevParams 9999 []
  else
    let shift := levShift targetScore in
    let speedFactor := levSpeedFactor optimism in
    let baseDelay95 := levBaseDelay95 currentYear in
    let totalBaseDelay := baseDelay95 + shift in
    let adjustedDelay := totalBaseDelay / speedFactor in
    let m := currentYear + adjustedDelay in
    let maxEvalYear := currentYear + 120 in
    mkLevParams m (pmfLoop PMF_FUEL currentYear maxEvalYear m).

(** ** 7. Pace of aging *)

Definition getPaceOfAging
    (year score quantileKey optimism horizonYear currentYear levMedianYear : R)
  : R :=
  let yLEV := IZR (js_round levMedianYear) in
  let pTarget := score in
  let zScoreVal := getFrailtyMultiplier pTarget in
  let r_q := getProgressMultiplier year pTarget quantileKey optimism
               horizonYear currentYear in
  let r_lev_median := getProgressMultiplier yLEV pTarget 50 optimism
                        horizonYear currentYear in
  let paceBaseAtLev := zScoreVal * r_lev_median in
  let lambda := paceBaseAtLev + REJUV_EXTRA in
  let L := if Rgeb year yLEV && Rgtb optimism (-10)
           then lambda * (1 - exp (- (year - yLEV) / REJUV_TAU))
           else 0 in
  let paceValid := zScoreVal * r_q - L in
  Rmin 2.00 (Rmax (-0.50) paceValid).

(** ** 8. Health index *)

Definition bioAgeToHealth (bioAge : R) : R :=
  1 / (1 + exp ((bioAge - HEALTH_MIDPOINT_BIOAGE) / HEALTH_STEEPNESS)).

(** ** 9. Cohort generation *)

(** [LifeTable] of [lev_data_loader]: consumed read-only by the engine. *)
Record LifeTable : Type := mkLifeTable {
  ages : list Z;
  qx : list R;
  source : String.string;
  lt_year : Z
}.

Inductive Sex : Type := male | female.

Record SimulationResult : Type := mkSimulationResult {
  survival : list R;        (* cumulative S(a) *)
  annualSurvival : list R;  (* P(survive a -> a+1) *)
  bioAge : list R;          (* biological age B(a) *)
  health : list R;          (* H(a) *)
  aliveHealthy : list R;    (* S(a) * H(a) *)
  pace : list R;            (* pace(year_a) *)
  lifeExpectancy : R;
  healthExpectancy : R;
  isIndefinite : bool
}.

(** [lifeTable.qx[Math.min(idx, lifeTable.ages[lifeTable.ages.length - 1])]];
    with an empty [ages] the index is not a number and the read is
    [undefined]. *)
Definition tableLookup (lifeTable : LifeTable) (idx : Z) : option R :=
  match js_last (ages lifeTable) with
  | Some lastAge => js_index (qx lifeTable) (Z.min idx lastAge)
  | None => None
  end.

(** The mutable locals of [simulateCohort]: [S], [B] and the six arrays. *)
Record CohortState : Type := mkCohortState {
  cs_S : R;
  cs_B : R;
  cs_survival : list R;
  cs_annualSurvival : list R;
  cs_bioAge : list R;
  cs_health : list R;
  cs_aliveHealthy : list R;
  cs_paceArray : list R
}.

Section SimulateCohort.

Variable startAge : Z.
Variables startScore targetScore horizonYear optimism : R.
Variable lifeTable : LifeTable.
Variable currentYear : R.
Variable isProtocol : bool.
Variable progressQuantile : R.

(** [levMedian]: precomputed for the rejuvenation logic if protocol. *)
Definition cohortLevMedian : R :=
  if isProtocol
  then medianYear (computeLevDistribution targetScore optimism currentYear)
  else 0.

(** [effectiveScore] of the loop body at calendar year [year]. *)
Definition effectiveScoreAt (year : R) : R :=
  let effectiveScore := if isProtocol then targetScore else startScore in
  if isProtocol && Rltb (year - currentYear) 10 then
    let t := (year - currentYear) / 10 in
    startScore + (targetScore - startScore) * t
  else effectiveScore.

(** Pace [p] of the loop body. *)
Definition paceAt (year effectiveScore : R) : R :=
  if isProtocol then
    getPaceOfAging year effectiveScore progressQuantile optimism
      horizonYear currentYear cohortLevMedian
  else
    let zScore := getFrailtyMultiplier effectiveScore in
    let r := getProgressMultiplier year effectiveScore 50 optimism
               horizonYear currentYear in
    zScore * r.

(** Hazard multiplier [mult] of the loop body. *)
Definition hazardMultAt (year effectiveScore p : R) : R :=
  let zScore := getFrailtyMultiplier effectiveScore in
  if isProtocol then
    let r := getProgressMultiplier year effectiveScore progressQuantile
               optimism horizonYear currentYear in
    let mult := zScore * r in
    if Rltb p 0 then mult * exp (2.0 * p) else mult
  else
    let r := getProgressMultiplier year effectiveScore 50 optimism
               horizonYear currentYear in
    zScore * r.

(** [qFinal] of the loop body, from the biological age [B]. *)
Definition qFinalAt (year effectiveScore p B : R) : R :=
  let ageIdx := Z.max 0 (js_floor B) in
  let qBase := orElse (tableLookup lifeTable ageIdx) 0.99 in
  let h0 := qToH qBase in
  let mult := hazardMultAt year effectiveScore p in
  let hFinal := h0 * Rmax 0.05 (Rmin 2.5 mult) in
  Rmin 0.999 (hToQ hFinal).

(** One iteration of [for (a = startAge; a < MAX_AGE_INTERNAL; a++)]. *)
Definition cohortStep (a : Z) (st : CohortState) : CohortState :=
  let year := currentYear + IZR (a - startAge) in
  let effectiveScore := effectiveScoreAt year in
  let p := paceAt year effectiveScore in
  let qFinal := qFinalAt year effectiveScore p (cs_B st) in
  let S := cs_S st * (1 - qFinal) in
  let B := cs_B st + p in
  let H := bioAgeToHealth B in
  mkCohortState S B
    (cs_survival st ++ [S])
    (cs_annualSurvival st ++ [1 - qFinal])
    (cs_bioAge st ++ [B])
    (cs_health st ++ [H])
    (cs_aliveHealthy st ++ [S * H])
    (cs_paceArray st ++ [p]).

(** The loop, [n] iterations starting with the counter at [a].  The counter
    runs over the integers from [startAge] while [a < MAX_AGE_INTERNAL], so
    [simulateCohort] asks for [MAX_AGE_INTERNAL - startAge] iterations (none
    when that is negative). *)
Fixpoint cohortLoop (n : nat) (a : Z) (st : CohortState) : CohortState :=
  match n with
  | O => st
  | S n' => cohortLoop n' (a + 1)%Z (cohortStep a st)
  end.

(** State after the pushes that precede the loop. *)
Definition cohortInit : CohortState :=
  let S := 1.0 in
  let B := IZR startAge * getFrailtyMultiplier startScore in
  let initialPace :=
    if isProtocol then
      getPaceOfAging currentYear targetScore progressQuantile optimism
        horizonYear currentYear cohortLevMedian
    else
      getFrailtyMultiplier startScore
      * getProgressMultiplier currentYear startScore 50 optimism
          horizonYear currentYear in
  let q0 := orElse (tableLookup lifeTable startAge) 0.001 in
  mkCohortState S B
    [S] [1 - q0] [B] [bioAgeToHealth B] [S * bioAgeToHealth B]
    [initialPace].

(** [aliveHealthy.reduce((acc, _val, idx) => ...)]: the survival mass at
    the indices whose health index reaches the threshold. *)
Definition healthspanSum (aliveHealthy health survival : list R) : R :=
  fold_left
    (fun acc idx =>
       match nth_error health idx, nth_error survival idx with
       | Some H_val, Some s =>
           if Rgeb H_val HEALTHSPAN_THRESHOLD then acc + s else acc
       | _, _ => acc
       end)
    (seq 0 (length aliveHealthy)) 0.

End SimulateCohort.

Definition simulateCohort
    (startAge : Z) (_sex : Sex)
    (startScore targetScore horizonYear optimism : R)
    (lifeTable : LifeTable) (currentYear : R) (isProtocol : bool)
    (progressQuantile : R) : SimulationResult :=
  let st :=
    cohortLoop startAge startScore targetScore horizonYear optimism
      lifeTable currentYear isProtocol progressQuantile
      (Z.to_nat (MAX_AGE_INTERNAL - startAge)) startAge
      (cohortInit startAge startScore targetScore horizonYear optimism
         lifeTable currentYear isProtocol progressQuantile) in
  let sumS := Rsum (cs_survival st) in
  let lifeExpectancy := sumS - 0.5 in
  let sumSH := healthspanSum (cs_aliveHealthy st) (cs_health st)
                 (cs_survival st) in
  let healthExpectancy := sumSH - 0.5 in
  let isIndefinite :=
    match js_last (cs_paceArray st), js_last (cs_survival st) with
    | Some lastPace, Some lastS =>
        isProtocol && (Rltb lastPace (-0.1) && Rgtb lastS 0.01)
    | _, _ => false
    end in
  mkSimulationResult (cs_survival st) (cs_annualSurvival st) (cs_bioAge st)
    (cs_health st) (cs_aliveHealthy st) (cs_paceArray st)
    lifeExpectancy healthExpectancy isIndefinite.

(** ** 10. Probability of achieving LEV *)

(** The loop [for (i = 0; i < probMass.length; i++)], from index [i] with
    [pms] the entries of [probMass] still to visit. *)
Fixpoint levProbLoop (pms : list R) (i : nat) (refSurvival : list R)
    (pAchieve : R) : R :=
  match pms with
  | [] => pAchieve
  | pmf :: rest =>
      let pAchieve' :=
        match nth_error refSurvival i with
        | Some s => pAchieve + s * pmf
        | None => pAchieve
        end in
      levProbLoop rest (S i) refSurvival pAchieve'
  end.

Definition calculateLevProb
    (_userAge : R) (score optimism : R) (_horizonYear : R)
    (_lifeTable : LifeTable) (currentYear : R) (refSurvival : list R) : R :=
  let pm := probMass (computeLevDistribution score optimism currentYear) in
  let pAchieve := levProbLoop pm 0 refSurvival 0 in
  let pAchieve := pAchieve * 0.90 in
  if Rltb score 20 then
    let penalty := (score / 20) ^ 2 in
    pAchieve * penalty
  else pAchieve.

(** ** Notions used by the statements *)

(** The entries the loop pushes when its guard holds [n] times. *)
Fixpoint pmfEntries (n : nat) (y m : R) : list R :=
  match n with
  | O => []
  | S n' => (levCdf y m - levCdf (y - 1) m) :: pmfEntries n' (y + 1) m
  end.

(** A sequence never goes up from one index to the next. *)
Definition nonincreasing (l : list R) : Prop :=
  forall (i : nat) (x y : R),
    nth_error l i = Some x -> nth_error l (S i) = Some y -> y <= x.

(** What the cohort loop maintains about [S] and the survival array. *)
Definition SurvivalInv (st : CohortState) : Prop :=
  0 <= cs_S st
  /\ js_last (cs_survival st) = Some (cs_S st)
  /\ nth_error (cs_survival st) 0 = Some 1
  /\ nonincreasing (cs_survival st).

(** What the cohort loop maintains about the pace array. *)
Definition PaceInv (st : CohortState) : Prop :=
  Forall (fun p => -0.50 <= p <= 2.00) (cs_paceArray st).

(** ** Life-table provider ([lev_data_loader]) *)

Definition SAMPLE_MALE_QX : list (R * R) :=
  [(0, 0.006); (10, 0.0001); (20, 0.0013); (30, 0.0022); (40, 0.0035);
   (50, 0.0068); (60, 0.013); (70, 0.026); (80, 0.055); (90, 0.13);
   (100, 0.28); (110, 0.50)].

Definition SAMPLE_FEMALE_QX : list (R * R) :=
  [(0, 0.005); (10, 0.0001); (20, 0.0006); (30, 0.0010); (40, 0.0020);
   (50, 0.0045); (60, 0.008); (70, 0.019); (80, 0.042); (90, 0.10);
   (100, 0.24); (110, 0.48)].

(** The loop of [interpolateQx] over the consecutive pairs of [data], and
    the [return 0.99] that follows it. *)
Fixpoint interpolateLoop (age : R) (data : list (R * R)) : R :=
  match data with
  | (a1, q1) :: rest =>
      match rest with
      | (a2, q2) :: _ =>
          if Rgeb age a1 && Rleb age a2 then
            let t := (age - a1) / (a2 - a1) in
            q1 + t * (q2 - q1)
          else interpolateLoop age rest
      | [] => 0.99
      end
  | [] => 0.99
  end.

(** [interpolateQx]; [None] is the [TypeError] of reading [data[0][0]] in
    an empty table. *)
Definition interpolateQx (age : R) (data : list (R * R)) : option R :=
  match data, js_last data with
  | (a0, q0) :: _, Some (aLast, qLast) =>
      if Rleb age a0 then Some q0
      else if Rgeb age aLast then Some qLast
      else Some (interpolateLoop age data)
  | _, _ => None
  end.

Module SampleSource.
Import String.
Definition SAMPLE_SOURCE : string := "Embedded Sample (Approx US 2021)"%string.
End SampleSource.

(** First loop of [embedSampleData]: [n] iterations from age [a], pushing
    the age and its interpolated probability. *)
Fixpoint fillLoop (n : nat) (a : Z) (sourceData : list (R * R))
    (agesAcc : list Z) (qxAcc : list R) : option (list Z * list R) :=
  match n with
  | O => Some (agesAcc, qxAcc)
  | S n' =>
      match interpolateQx (IZR a) sourceData with
      | Some q =>
          fillLoop n' (a + 1)%Z sourceData (agesAcc ++ [a]) (qxAcc ++ [q])
      | None => None
      end
  end.

(** Second loop of [embedSampleData]: the Gompertz extrapolation
    [h = A * exp (B * a)], capped at 0.999. *)
Fixpoint extrapolateLoop (n : nat) (a : Z) (A B : R)
    (agesAcc : list Z) (qxAcc : list R) : list Z * list R :=
  match n with
  | O => (agesAcc, qxAcc)
  | S n' =>
      let predictedH := A * exp (B * IZR a) in
      let predictedQ := 1 - exp (- predictedH) in
      extrapolateLoop n' (a + 1)%Z A B (agesAcc ++ [a])
        (qxAcc ++ [Rmin 0.999 predictedQ])
  end.

Definition embedSampleData (sex : Sex) : option LifeTable :=
  let sourceData :=
    match sex with male => SAMPLE_MALE_QX | female => SAMPLE_FEMALE_QX end in
  (* 1. fill 0..110 from the sample interpolation *)
  match fillLoop 111 0 sourceData [] [] with
  | None => None
  | Some (ages1, qx1) =>
      (* 2. two-point Gompertz fit on ages 90 and 110 *)
      let x1 := 90 in
      let x2 := 110 in
      match interpolateQx x1 sourceData, interpolateQx x2 sourceData with
      | Some q1, Some q2 =>
          let h1 := - ln (1 - q1) in
          let h2 := - ln (1 - q2) in
          let B := (ln h2 - ln h1) / (x2 - x1) in
          let A := h1 / exp (B * x1) in
          (* extrapolate 111..150 *)
          let '(ages2, qx2) := extrapolateLoop 40 111 A B ages1 qx1 in
          Some (mkLifeTable ages2 qx2 SampleSource.SAMPLE_SOURCE 2021)
      | _, _ => None
      end
  end.

(** ** Further notions used by the statements *)

(** Ages strictly increasing along a sample table. *)
Fixpoint agesIncreasing (data : list (R * R)) : Prop :=
  match data with
  | (a1, _) :: rest =>
      match rest with
      | (a2, _) :: _ => a1 < a2 /\ agesIncreasing rest
      | [] => True
      end
  | [] => True
  end.

(** The ages [a], [a + 1], ..., [a + n - 1]. *)
Fixpoint agesFrom (n : nat) (a : Z) : list Z :=
  match n with
  | O => []
  | S n' => a :: agesFrom n' (a + 1)%Z
  end.

(** Each entry of [xs] after the first is [f] of the entry before it and
    of the entry of [ds] at the same index. *)
Definition stepwise (f : R -> R -> R) (xs ds : list R) : Prop :=
  forall (i : nat) (x d : R),
    nth_error xs i = Some x -> nth_error ds (S i) = Some d ->
    nth_error xs (S i) = Some (f x d).

(** How the six arrays of the cohort loop hang together. *)
Definition CoherentInv (st : CohortState) : Prop :=
  length (cs_annualSurvival st) = length (cs_survival st)
  /\ length (cs_bioAge st) = length (cs_survival st)
  /\ length (cs_paceArray st) = length (cs_survival st)
  /\ js_last (cs_survival st) = Some (cs_S st)
  /\ js_last (cs_bioAge st) = Some (cs_B st)
  /\ cs_health st = map bioAgeToHealth (cs_bioAge st)
  /\ cs_aliveHealthy st
     = map (fun sh => fst sh * snd sh)
         (combine (cs_survival st) (cs_health st))
  /\ stepwise Rmult (cs_survival st) (cs_annualSurvival st)
  /\ stepwise Rplus (cs_bioAge st) (cs_paceArray st).

(** * Properties *)

(** ** Comparisons, clamps and sums *)

Lemma Rleb_true (x y : R) : x <= y -> Rleb x y = true.
Proof. intros H. unfold Rleb. destruct (Rle_dec x y); [reflexivity | lra]. Qed.

Lemma Rleb_false (x y : R) : y < x -> Rleb x y = false.
Proof. intros H. unfold Rleb. destruct (Rle_dec x y); [lra | reflexivity]. Qed.

Lemma Rltb_true (x y : R) : x < y -> Rltb x y = true.
Proof. intros H. unfold Rltb. destruct (Rlt_dec x y); [reflexivity | lra]. Qed.

Lemma Rltb_false (x y : R) : y <= x -> Rltb x y = false.
Proof. intros H. unfold Rltb. destruct (Rlt_dec x y); [lra | reflexivity]. Qed.

Lemma Rgeb_true (x y : R) : y <= x -> Rgeb x y = true.
Proof. apply Rleb_true. Qed.

Lemma Rgeb_false (x y : R) : x < y -> Rgeb x y = false.
Proof. apply Rleb_false. Qed.

Lemma Rgtb_true (x y : R) : y < x -> Rgtb x y = true.
Proof. apply Rltb_true. Qed.

Lemma Rgtb_false (x y : R) : x <= y -> Rgtb x y = false.
Proof. apply Rltb_false. Qed.

(** Case analysis on every comparison, [Rmin] and [Rmax] of the goal. *)
Ltac cmp_cases :=
  unfold Rgeb, Rgtb, Rleb, Rltb in *;
  repeat match goal with
    | |- context [Rmin ?a ?b] =>
        destruct (Rle_dec a b);
        [ rewrite (Rmin_left a b) in * by assumption
        | rewrite (Rmin_right a b) in * by lra ]
    | |- context [Rmax ?a ?b] =>
        destruct (Rle_dec a b);
        [ rewrite (Rmax_right a b) in * by assumption
        | rewrite (Rmax_left a b) in * by lra ]
    | _ : context [Rmin ?a ?b] |- _ =>
        destruct (Rle_dec a b);
        [ rewrite (Rmin_left a b) in * by assumption
        | rewrite (Rmin_right a b) in * by lra ]
    | _ : context [Rmax ?a ?b] |- _ =>
        destruct (Rle_dec a b);
        [ rewrite (Rmax_right a b) in * by assumption
        | rewrite (Rmax_left a b) in * by lra ]
    | |- context [Rle_dec ?a ?b] => destruct (Rle_dec a b)
    | |- context [Rlt_dec ?a ?b] => destruct (Rlt_dec a b)
    end;
  simpl in *; try lra.

Lemma clamp_bounds (lo hi x : R) :
  lo <= hi -> lo <= Rmin hi (Rmax lo x) <= hi.
Proof. intros H. cmp_cases. Qed.

Lemma clamp_mono (lo hi x y : R) :
  x <= y -> Rmin hi (Rmax lo x) <= Rmin hi (Rmax lo y).
Proof. intros H. cmp_cases. Qed.

Lemma Rabs_le_between (a b : R) : Rabs a <= b -> - b <= a <= b.
Proof. unfold Rabs. destruct (Rcase_abs a); lra. Qed.

Lemma fold_left_Rplus_acc (l : list R) (a : R) :
  fold_left Rplus l a = a + fold_left Rplus l 0.
Proof.
  revert a. induction l as [|x l IH]; intros a; simpl.
  - lra.
  - rewrite (IH (a + x)), (IH (0 + x)). lra.
Qed.

Lemma Rsum_nil : Rsum [] = 0.
Proof. reflexivity. Qed.

Lemma Rsum_cons (x : R) (l : list R) : Rsum (x :: l) = x + Rsum l.
Proof.
  unfold Rsum. simpl. rewrite fold_left_Rplus_acc. lra.
Qed.

(** ** Exponentials *)

Lemma exp_le_mono (x y : R) : x <= y -> exp x <= exp y.
Proof.
  intros [H | H].
  - left. now apply exp_increasing.
  - subst. lra.
Qed.

Lemma exp_nonpos_le_1 (x : R) : x <= 0 -> exp x <= 1.
Proof. intros H. rewrite <- exp_0. now apply exp_le_mono. Qed.

Lemma exp_INR_mult (n : nat) (x : R) : exp (INR n * x) = exp x ^ n.
Proof.
  induction n as [|n IH].
  - simpl. rewrite Rmult_0_l. apply exp_0.
  - rewrite S_INR, Rmult_plus_distr_r, Rmult_1_l, exp_plus, IH. simpl. lra.
Qed.

(** [exp x <= 1 / (1 - x)] below 1, from [1 - x <= exp (- x)]. *)
Lemma exp_le_inv_1_minus (x : R) : x < 1 -> exp x <= / (1 - x).
Proof.
  intros H.
  pose proof (exp_ineq1_le (- x)) as H1.
  pose proof (exp_pos x) as Hp.
  assert (He : exp x * exp (- x) = 1).
  { rewrite <- exp_plus. replace (x + - x) with 0 by lra. apply exp_0. }
  assert (Hle : exp x * (1 - x) <= 1) by nra.
  apply (Rmult_le_reg_r (1 - x)); [lra|].
  rewrite Rinv_l; lra.
Qed.

Lemma ln_4_pos : 0 < ln 4.
Proof. rewrite <- ln_1. apply ln_increasing; lra. Qed.

Lemma LEV_K_pos : 0 < LEV_K.
Proof. unfold LEV_K. pose proof ln_4_pos. lra. Qed.

(** [LEV_K] is chosen so that five years multiply the odds by four. *)
Lemma exp_LEV_K_5n (n : nat) : exp (LEV_K * (5 * INR n)) = 4 ^ n.
Proof.
  replace (LEV_K * (5 * INR n)) with (INR n * ln 4)
    by (unfold LEV_K; field).
  rewrite exp_INR_mult, exp_ln; [reflexivity | lra].
Qed.

Lemma exp_LEV_K_ge (n : nat) (x : R) :
  5 * INR n <= x -> 4 ^ n <= exp (LEV_K * x).
Proof.
  intros H. rewrite <- exp_LEV_K_5n. apply exp_le_mono.
  pose proof LEV_K_pos. nra.
Qed.

Lemma exp_LEV_K_le (n : nat) (x : R) :
  x <= 5 * INR n -> exp (LEV_K * x) <= 4 ^ n.
Proof.
  intros H. rewrite <- exp_LEV_K_5n. apply exp_le_mono.
  pose proof LEV_K_pos. nra.
Qed.

(** ** Hazard conversion *)

Lemma qToH_ge_1 (q : R) : 1 <= q -> qToH q = 100.
Proof. intros H. unfold qToH. now rewrite Rgeb_true. Qed.

Lemma qToH_lt_1 (q : R) : q < 1 -> qToH q = - ln (1 - q).
Proof. intros H. unfold qToH. now rewrite Rgeb_false. Qed.

Lemma hToQ_qToH (q : R) : q < 1 -> hToQ (qToH q) = q.
Proof.
  intros H. rewrite qToH_lt_1 by assumption. unfold hToQ.
  rewrite Ropp_involutive, exp_ln; lra.
Qed.

(** C7: on [0,1) the two hazard conversions are exact inverses over the
    reals (so the round trip is within 1e-9 of [q]); [qToH] is
    [- ln (1 - q)] there and the constant 100 from 1 on, and [hToQ h] is
    [1 - exp (- h)]. *)
Theorem hazard_round_trip (q : R) (Hq : 0 <= q < 1) :
  hToQ (qToH q) = q
  /\ Rabs (hToQ (qToH q) - q) <= 1e-9
  /\ qToH q = - ln (1 - q)
  /\ (forall q' : R, 1 <= q' -> qToH q' = 100)
  /\ (forall h : R, hToQ h = 1 - exp (- h)).
Proof.
  destruct Hq as [_ Hlt].
  pose proof (hToQ_qToH q Hlt) as Hrt.
  repeat split.
  - exact Hrt.
  - rewrite Hrt. replace (q - q) with 0 by lra. rewrite Rabs_R0. lra.
  - now apply qToH_lt_1.
  - apply qToH_ge_1.
Qed.

Lemma hazard_round_trip_witness :
  hToQ (qToH 0.5) = 0.5
  /\ Rabs (hToQ (qToH 0.5) - 0.5) <= 1e-9
  /\ qToH 0.5 = - ln (1 - 0.5)
  /\ (forall q' : R, 1 <= q' -> qToH q' = 100)
  /\ (forall h : R, hToQ h = 1 - exp (- h)).
Proof. apply (hazard_round_trip 0.5). lra. Defined.

(** ** No progress at optimism -10 *)

(** C4: with [optimism <= -10] the progress multiplier is exactly 1 for
    every year, score, quantile key, horizon and current year, and the LEV
    distribution is exactly [{medianYear: 9999, probMass: []}]. *)
Theorem no_progress_short_circuit (optimism : R) (Hopt : optimism <= -10) :
  (forall year score quantileKey horizonYear currentYear : R,
      getProgressMultiplier year score quantileKey optimism horizonYear
        currentYear = 1)
  /\ (forall targetScore currentYear : R,
         computeLevDistribution targetScore optimism currentYear
         = mkLevParams 9999 []).
Proof.
  split.
  - intros year score quantileKey horizonYear currentYear.
    unfold getProgressMultiplier. cbv zeta.
    destruct (Rleb (Rmax 0 (Rmin year horizonYear - currentYear)) 0).
    + lra.
    + rewrite Rleb_true by assumption. lra.
  - intros targetScore currentYear. unfold computeLevDistribution.
    now rewrite Rleb_true.
Qed.

Lemma no_progress_short_circuit_witness :
  (forall year score quantileKey horizonYear currentYear : R,
      getProgressMultiplier year score quantileKey (-10) horizonYear
        currentYear = 1)
  /\ (forall targetScore currentYear : R,
         computeLevDistribution targetScore (-10) currentYear
         = mkLevParams 9999 []).
Proof. apply (no_progress_short_circuit (-10)). lra. Defined.

(** ** Pace of aging *)

(** C8: the rejuvenation pull [L] of [getPaceOfAging] is built from the
    50th-percentile progress multiplier at the rounded LEV median year and
    does not depend on [quantileKey]: one [L], given by
    [lambda * (1 - exp (- (year - yLEV) / TAU))] when [year >= yLEV] and
    [optimism > -10] and 0 otherwise, serves every quantile key, and the
    pace for key [q] is [clamp (z * r_q - L) (-0.50) 2.00]. *)
Theorem pace_rejuvenation_anchor
    (year score optimism horizonYear currentYear levMedianYear : R) :
  let yLEV := IZR (js_round levMedianYear) in
  let z := getFrailtyMultiplier score in
  let lambda :=
    z * getProgressMultiplier yLEV score 50 optimism horizonYear currentYear
    + REJUV_EXTRA in
  exists L : R,
    (yLEV <= year /\ -10 < optimism ->
     L = lambda * (1 - exp (- (year - yLEV) / REJUV_TAU)))
    /\ (~ (yLEV <= year /\ -10 < optimism) -> L = 0)
    /\ forall q1 q2 : R,
        getPaceOfAging year score q1 optimism horizonYear currentYear
          levMedianYear
        = Rmin 2.00 (Rmax (-0.50)
            (z * getProgressMultiplier year score q1 optimism horizonYear
                   currentYear - L))
        /\ getPaceOfAging year score q2 optimism horizonYear currentYear
             levMedianYear
           = Rmin 2.00 (Rmax (-0.50)
               (z * getProgressMultiplier year score q2 optimism horizonYear
                      currentYear - L)).
Proof.
  intros yLEV z lambda.
  exists (if Rgeb year yLEV && Rgtb optimism (-10)
          then lambda * (1 - exp (- (year - yLEV) / REJUV_TAU))
          else 0).
  split; [|split].
  - intros [Hy Ho]. now rewrite Rgeb_true, Rgtb_true.
  - intros Hn.
    destruct (Rle_dec yLEV year) as [Hy | Hy].
    + rewrite Rgeb_true by assumption.
      rewrite Rgtb_false; [reflexivity|].
      destruct (Rle_dec optimism (-10)); [assumption|].
      exfalso. apply Hn. split; lra.
    + rewrite Rgeb_false by lra. reflexivity.
  - intros q1 q2. split; reflexivity.
Qed.

(** ** LEV distribution: the concrete scenario *)

Lemma levShift_50 : levShift 50 = 15.
Proof.
  unfold levShift.
  rewrite (Rgeb_false 50 95), (Rgeb_false 50 75), (Rgeb_true 50 50) by lra.
  cbv zeta. field.
Qed.

Lemma levSpeedFactor_pos_opt (optimism : R) :
  -9.9 < optimism -> levSpeedFactor optimism = 1 + 0.1 * optimism.
Proof.
  intros H. unfold levSpeedFactor. cbv zeta. rewrite Rleb_false; lra.
Qed.

(** C9: for [currentYear = 2024], [targetScore = 50], [optimism = 0] the
    shift is 15, the base delay 16, the speed factor 1 and the median year
    2055. *)
Theorem scenario_B_median_2055 :
  levShift 50 = 15
  /\ levBaseDelay95 2024 = 16
  /\ levSpeedFactor 0 = 1
  /\ medianYear (computeLevDistribution 50 0 2024) = 2055.
Proof.
  assert (Hs : levShift 50 = 15) by apply levShift_50.
  assert (Hb : levBaseDelay95 2024 = 16).
  { unfold levBaseDelay95, LEV_MEDIAN_95. rewrite Rmax_right; lra. }
  assert (Hf : levSpeedFactor 0 = 1).
  { rewrite levSpeedFactor_pos_opt; lra. }
  repeat split; try assumption.
  unfold computeLevDistribution. rewrite Rleb_false by lra.
  cbv zeta. simpl medianYear. rewrite Hs, Hb, Hf. field.
Qed.

(** ** LEV probability: ignored arguments *)

(** C10: [calculateLevProb] depends only on [score], [optimism],
    [currentYear] and [refSurvival]; [userAge], [horizonYear] and
    [lifeTable] are ignored. *)
Theorem calculateLevProb_ignores_age_horizon_table
    (userAge1 userAge2 horizonYear1 horizonYear2 : R)
    (lifeTable1 lifeTable2 : LifeTable)
    (score optimism currentYear : R) (refSurvival : list R) :
  calculateLevProb userAge1 score optimism horizonYear1 lifeTable1
    currentYear refSurvival
  = calculateLevProb userAge2 score optimism horizonYear2 lifeTable2
      currentYear refSurvival.
Proof. reflexivity. Qed.

(** ** The logistic CDF and the probability mass *)

Lemma levCdf_bounds (t m : R) : 0 < levCdf t m < 1.
Proof.
  unfold levCdf. pose proof (exp_pos (- LEV_K * (t - m))) as Hp.
  split.
  - apply Rdiv_lt_0_compat; lra.
  - apply (Rmult_lt_reg_r (1 + exp (- LEV_K * (t - m)))); [lra|].
    unfold Rdiv. rewrite Rmult_assoc, Rinv_l; lra.
Qed.

Lemma levCdf_increasing (t1 t2 m : R) :
  t1 < t2 -> levCdf t1 m < levCdf t2 m.
Proof.
  intros H. unfold levCdf, Rdiv. rewrite !Rmult_1_l.
  pose proof (exp_pos (- LEV_K * (t2 - m))) as Hp.
  apply Rinv_lt_contravar.
  - pose proof (exp_pos (- LEV_K * (t1 - m))). nra.
  - apply Rplus_lt_compat_l, exp_increasing.
    pose proof LEV_K_pos. nra.
Qed.

(** The upper tail of the logistic: [1 - cdf] is the mirrored odds. *)
Lemma levCdf_complement (t m : R) :
  1 - levCdf t m = 1 / (1 + exp (LEV_K * (t - m))).
Proof.
  unfold levCdf.
  replace (- LEV_K * (t - m)) with (- (LEV_K * (t - m))) by lra.
  rewrite exp_Ropp.
  pose proof (exp_pos (LEV_K * (t - m))) as Hp.
  field. split; lra.
Qed.

Lemma levCdf_below (t m : R) :
  levCdf t m = 1 / (1 + exp (LEV_K * (m - t))).
Proof.
  unfold levCdf. f_equal. f_equal. f_equal. lra.
Qed.

Lemma pmfEntries_length (n : nat) (y m : R) : length (pmfEntries n y m) = n.
Proof.
  revert y. induction n as [|n IH]; intros y; simpl; [|rewrite IH]; reflexivity.
Qed.

Lemma pmfEntries_pos (n : nat) (y m : R) :
  Forall (fun p => 0 < p) (pmfEntries n y m).
Proof.
  revert y. induction n as [|n IH]; intros y; simpl; constructor.
  - pose proof (levCdf_increasing (y - 1) y m). lra.
  - apply IH.
Qed.

(** The sum telescopes. *)
Lemma pmfEntries_sum (n : nat) (y m : R) :
  Rsum (pmfEntries n y m) = levCdf (y + INR n - 1) m - levCdf (y - 1) m.
Proof.
  revert y. induction n as [|n IH]; intros y.
  - simpl. rewrite Rsum_nil. replace (y + 0 - 1) with (y - 1) by lra. lra.
  - simpl pmfEntries. rewrite Rsum_cons, IH, S_INR.
    replace (y + 1 + INR n - 1) with (y + (INR n + 1) - 1) by lra.
    replace (y + 1 - 1) with y by lra. lra.
Qed.

(** With enough fuel the loop runs exactly while the guard holds. *)
Lemma pmfLoop_entries (n fuel : nat) (y maxEvalYear m : R) :
  (n < fuel)%nat ->
  y + INR n - 1 <= maxEvalYear < y + INR n ->
  pmfLoop fuel y maxEvalYear m = pmfEntries n y m.
Proof.
  revert fuel y. induction n as [|n IH]; intros fuel y Hf Hy.
  - destruct fuel as [|fuel]; [lia|]. simpl in *.
    rewrite Rleb_false by lra. reflexivity.
  - destruct fuel as [|fuel]; [lia|]. rewrite S_INR in Hy. simpl.
    rewrite Rleb_true by (pose proof (pos_INR n); lra).
    f_equal. apply IH; [lia | lra].
Qed.

Lemma probMass_entries (targetScore optimism currentYear : R) :
  -10 < optimism ->
  probMass (computeLevDistribution targetScore optimism currentYear)
  = pmfEntries 121 currentYear
      (medianYear (computeLevDistribution targetScore optimism currentYear)).
Proof.
  intros H. unfold computeLevDistribution. rewrite Rleb_false by assumption.
  cbv zeta. cbn [probMass medianYear].
  apply pmfLoop_entries.
  - unfold PMF_FUEL. lia.
  - replace (INR 121) with 121 by (simpl; lra). lra.
Qed.

Lemma probMass_sum (targetScore optimism currentYear : R) :
  -10 < optimism ->
  let lev := computeLevDistribution targetScore optimism currentYear in
  Rsum (probMass lev)
  = levCdf (currentYear + 120) (medianYear lev)
    - levCdf (currentYear - 1) (medianYear lev).
Proof.
  intros H lev. unfold lev. rewrite probMass_entries by assumption.
  rewrite pmfEntries_sum.
  replace (INR 121) with 121 by (simpl; lra).
  replace (currentYear + 121 - 1) with (currentYear + 120) by lra.
  reflexivity.
Qed.

Lemma medianYear_progress (targetScore optimism currentYear : R) :
  -9.9 < optimism ->
  medianYear (computeLevDistribution targetScore optimism currentYear)
  = currentYear
    + (levBaseDelay95 currentYear + levShift targetScore)
      / (1 + 0.1 * optimism).
Proof.
  intros H. unfold computeLevDistribution. rewrite Rleb_false by lra.
  cbv zeta. cbn [medianYear]. now rewrite levSpeedFactor_pos_opt.
Qed.

Lemma inv_succ_le (lo a : R) : 0 < lo -> lo <= a -> 1 / (1 + a) <= 1 / (1 + lo).
Proof.
  intros H0 H. unfold Rdiv. rewrite !Rmult_1_l.
  apply Rinv_le_contravar; lra.
Qed.

Lemma inv_succ_ge (hi a : R) : 0 < a -> a <= hi -> 1 / (1 + hi) <= 1 / (1 + a).
Proof.
  intros H0 H. unfold Rdiv. rewrite !Rmult_1_l.
  apply Rinv_le_contravar; lra.
Qed.

(** The mass that the 121-year window misses: the logistic tail before
    [currentYear] plus the tail after [currentYear + 120]. *)
Lemma window_mass_missing (currentYear m : R) :
  1 - (levCdf (currentYear + 120) m - levCdf (currentYear - 1) m)
  = 1 / (1 + exp (LEV_K * (m - currentYear + 1)))
    + 1 / (1 + exp (LEV_K * (currentYear + 120 - m))).
Proof.
  pose proof (levCdf_complement (currentYear + 120) m) as Hc.
  pose proof (levCdf_below (currentYear - 1) m) as Hb.
  replace (m - (currentYear - 1)) with (m - currentYear + 1) in Hb by lra.
  replace (currentYear + 120 - m) with (currentYear + 120 - m) in Hc by lra.
  lra.
Qed.

Lemma window_mass_close (currentYear m : R) :
  24 <= m - currentYear <= 95 ->
  1 - (levCdf (currentYear + 120) m - levCdf (currentYear - 1) m) <= 1e-3.
Proof.
  intros [Hlo Hhi]. rewrite window_mass_missing.
  set (a := exp (LEV_K * (m - currentYear + 1))).
  set (b := exp (LEV_K * (currentYear + 120 - m))).
  destruct (Rle_dec (m - currentYear) 59.5) as [Hmid | Hmid].
  - assert (Ha : 4 ^ 5 <= a) by (apply exp_LEV_K_ge; simpl; lra).
    assert (Hb : 4 ^ 12 <= b) by (apply exp_LEV_K_ge; simpl; lra).
    simpl in Ha, Hb.
    pose proof (inv_succ_le 1024 a ltac:(lra) ltac:(lra)).
    pose proof (inv_succ_le 16777216 b ltac:(lra) ltac:(lra)).
    lra.
  - assert (Ha : 4 ^ 12 <= a) by (apply exp_LEV_K_ge; simpl; lra).
    assert (Hb : 4 ^ 5 <= b) by (apply exp_LEV_K_ge; simpl; lra).
    simpl in Ha, Hb.
    pose proof (inv_succ_le 16777216 a ltac:(lra) ltac:(lra)).
    pose proof (inv_succ_le 1024 b ltac:(lra) ltac:(lra)).
    lra.
Qed.

Lemma window_mass_far (currentYear m : R) :
  m - currentYear <= 19 \/ 100 <= m - currentYear ->
  1 / 257 <= 1 - (levCdf (currentYear + 120) m - levCdf (currentYear - 1) m).
Proof.
  intros H. rewrite window_mass_missing.
  set (a := exp (LEV_K * (m - currentYear + 1))).
  set (b := exp (LEV_K * (currentYear + 120 - m))).
  assert (Hpa : 0 < a) by apply exp_pos.
  assert (Hpb : 0 < b) by apply exp_pos.
  assert (Hta : 0 < 1 / (1 + a)) by (apply Rdiv_lt_0_compat; lra).
  assert (Htb : 0 < 1 / (1 + b)) by (apply Rdiv_lt_0_compat; lra).
  destruct H as [H | H].
  - assert (Ha : a <= 4 ^ 4) by (apply exp_LEV_K_le; simpl; lra).
    simpl in Ha.
    pose proof (inv_succ_ge 256 a ltac:(lra) ltac:(lra)). lra.
  - assert (Hb : b <= 4 ^ 4) by (apply exp_LEV_K_le; simpl; lra).
    simpl in Hb.
    pose proof (inv_succ_ge 256 b ltac:(lra) ltac:(lra)). lra.
Qed.

(** C1, as the code has it: for every [optimism > -10], target score and
    current year the probability mass has 121 entries, all positive, whose
    sum telescopes to [CDF (currentYear + 120) - CDF (currentYear - 1)],
    strictly between 0 and 1.  The sum is within 1e-3 of 1 when the
    adjusted delay [medianYear - currentYear] lies in [24, 95]; it is not
    when the delay is at most 19 or at least 100. *)
Theorem probMass_window_sum (targetScore optimism currentYear : R)
    (Hopt : -10 < optimism) :
  let lev := computeLevDistribution targetScore optimism currentYear in
  let delay := medianYear lev - currentYear in
  length (probMass lev) = 121%nat
  /\ Forall (fun p => 0 < p) (probMass lev)
  /\ Rsum (probMass lev)
     = levCdf (currentYear + 120) (medianYear lev)
       - levCdf (currentYear - 1) (medianYear lev)
  /\ 0 < Rsum (probMass lev) < 1
  /\ (24 <= delay <= 95 -> Rabs (Rsum (probMass lev) - 1) <= 1e-3)
  /\ (delay <= 19 \/ 100 <= delay ->
      ~ Rabs (Rsum (probMass lev) - 1) <= 1e-3).
Proof.
  intros lev delay.
  pose proof (probMass_entries targetScore optimism currentYear Hopt) as He.
  pose proof (probMass_sum targetScore optimism currentYear Hopt) as Hs.
  cbv zeta in Hs. fold lev in He, Hs.
  set (m := medianYear lev) in *.
  pose proof (levCdf_bounds (currentYear + 120) m) as Hu.
  pose proof (levCdf_bounds (currentYear - 1) m) as Hl.
  pose proof (levCdf_increasing (currentYear - 1) (currentYear + 120) m
                ltac:(lra)) as Hi.
  split; [|split; [|split; [|split; [|split]]]].
  - rewrite He. apply pmfEntries_length.
  - rewrite He. apply pmfEntries_pos.
  - exact Hs.
  - rewrite Hs. lra.
  - intros Hd. pose proof (window_mass_close currentYear m Hd) as Hc.
    rewrite Hs. apply Rabs_le. lra.
  - intros Hd Habs. pose proof (window_mass_far currentYear m Hd) as Hf.
    rewrite Hs in Habs. apply Rabs_le_between in Habs. lra.
Qed.

Lemma probMass_window_sum_witness :
  let lev := computeLevDistribution 50 0 2024 in
  let delay := medianYear lev - 2024 in
  length (probMass lev) = 121%nat
  /\ Forall (fun p => 0 < p) (probMass lev)
  /\ Rsum (probMass lev)
     = levCdf (2024 + 120) (medianYear lev)
       - levCdf (2024 - 1) (medianYear lev)
  /\ 0 < Rsum (probMass lev) < 1
  /\ (24 <= delay <= 95 -> Rabs (Rsum (probMass lev) - 1) <= 1e-3)
  /\ (delay <= 19 \/ 100 <= delay ->
      ~ Rabs (Rsum (probMass lev) - 1) <= 1e-3).
Proof. apply (probMass_window_sum 50 0 2024). lra. Defined.

(** C1 as stated fails on the reference scenario [currentYear = 2024],
    [targetScore = 95], [optimism = 0]: the median year is 2040, the 121
    entries are there, but the logistic tail before 2024 alone weighs more
    than 1/257, so the sum is not within 1e-3 of 1. *)
Lemma probMass_sum_not_normalized :
  let lev := computeLevDistribution 95 0 2024 in
  length (probMass lev) = 121%nat
  /\ ~ Rabs (Rsum (probMass lev) - 1) <= 1e-3.
Proof.
  intros lev.
  assert (Hm : medianYear lev = 2040).
  { unfold lev. rewrite medianYear_progress by lra.
    unfold levBaseDelay95, LEV_MEDIAN_95, levShift.
    rewrite Rgeb_true by lra. rewrite Rmax_right by lra. field. }
  pose proof (probMass_entries 95 0 2024 ltac:(lra)) as He.
  pose proof (probMass_sum 95 0 2024 ltac:(lra)) as Hs.
  cbv zeta in Hs. fold lev in He, Hs. rewrite Hm in He, Hs.
  split.
  - rewrite He. apply pmfEntries_length.
  - intros Habs. rewrite Hs in Habs. apply Rabs_le_between in Habs.
    pose proof (window_mass_far 2024 2040 ltac:(left; lra)). lra.
Qed.

(** ** Probability of achieving LEV *)

Lemma levProbLoop_bounds (pms refSurvival : list R) (i : nat) (acc : R) :
  Forall (fun p => 0 <= p) pms ->
  Forall (fun s => 0 <= s <= 1) refSurvival ->
  acc <= levProbLoop pms i refSurvival acc <= acc + Rsum pms.
Proof.
  intros Hp Hr. revert i acc.
  induction Hp as [|pmf rest Hpmf Hrest IH]; intros i acc.
  - simpl. rewrite Rsum_nil. lra.
  - simpl. rewrite Rsum_cons.
    destruct (nth_error refSurvival i) as [s|] eqn:Hs.
    + apply nth_error_In in Hs.
      rewrite Forall_forall in Hr. specialize (Hr s Hs).
      specialize (IH (S i) (acc + s * pmf)). nra.
    + specialize (IH (S i) acc). lra.
Qed.

Lemma probMass_nonneg (score optimism currentYear : R) :
  Forall (fun p => 0 <= p)
    (probMass (computeLevDistribution score optimism currentYear)).
Proof.
  destruct (Rle_dec optimism (-10)) as [H | H].
  - unfold computeLevDistribution. rewrite Rleb_true by assumption.
    constructor.
  - rewrite probMass_entries by lra.
    eapply Forall_impl; [|apply pmfEntries_pos].
    intros p Hp. simpl in Hp. lra.
Qed.

Lemma probMass_sum_le_1 (score optimism currentYear : R) :
  Rsum (probMass (computeLevDistribution score optimism currentYear)) <= 1.
Proof.
  destruct (Rle_dec optimism (-10)) as [H | H].
  - unfold computeLevDistribution. rewrite Rleb_true by assumption.
    simpl. rewrite Rsum_nil. lra.
  - pose proof (probMass_sum score optimism currentYear ltac:(lra)) as Hs.
    cbv zeta in Hs. rewrite Hs.
    set (m := medianYear _).
    pose proof (levCdf_bounds (currentYear + 120) m).
    pose proof (levCdf_bounds (currentYear - 1) m). lra.
Qed.



(** ** Multipliers and pace: ranges *)

Lemma getProgressMultiplier_range
    (year score quantileKey optimism horizonYear currentYear : R) :
  0.01 <= getProgressMultiplier year score quantileKey optimism horizonYear
            currentYear <= 1.20.
Proof.
  unfold getProgressMultiplier. cbv zeta.
  destruct (Rleb (Rmax 0 (Rmin year horizonYear - currentYear)) 0); [lra|].
  destruct (Rleb optimism (-10)); [lra|].
  apply clamp_bounds. lra.
Qed.

Lemma getPaceOfAging_range
    (year score quantileKey optimism horizonYear currentYear levMedianYear : R) :
  -0.50 <= getPaceOfAging year score quantileKey optimism horizonYear
             currentYear levMedianYear <= 2.00.
Proof. unfold getPaceOfAging. cbv zeta. apply clamp_bounds. lra. Qed.

Lemma getFrailtyMultiplier_pos (score : R) : 0 < getFrailtyMultiplier score.
Proof. unfold getFrailtyMultiplier. apply exp_pos. Qed.

Lemma getFrailtyMultiplier_le (score : R) :
  1 <= score -> getFrailtyMultiplier score <= 1.5.
Proof.
  intros H. unfold getFrailtyMultiplier, FRAILTY_A. cbv zeta.
  apply Rle_trans with (exp 0.3185); [apply exp_le_mono; lra|].
  apply Rle_trans with (/ (1 - 0.3185)); [apply exp_le_inv_1_minus; lra|].
  apply (Rmult_le_reg_r (1 - 0.3185)); [lra|].
  rewrite Rinv_l; lra.
Qed.

(** ** Hazard of one step *)

Lemma qToH_nonneg (q : R) : 0 <= q <= 1 -> 0 <= qToH q.
Proof.
  intros [H0 H1]. destruct (Rle_dec 1 q) as [Hq | Hq].
  - rewrite qToH_ge_1 by assumption. lra.
  - rewrite qToH_lt_1 by lra.
    destruct (Req_dec q 0) as [-> | Hnz].
    + replace (1 - 0) with 1 by lra. rewrite ln_1. lra.
    + pose proof (ln_increasing (1 - q) 1 ltac:(lra) ltac:(lra)) as Hl.
      rewrite ln_1 in Hl. lra.
Qed.

Lemma hToQ_range (h : R) : 0 <= h -> 0 <= hToQ h < 1.
Proof.
  intros H. unfold hToQ.
  pose proof (exp_pos (- h)). pose proof (exp_nonpos_le_1 (- h) ltac:(lra)).
  lra.
Qed.

Lemma tableLookup_In (lifeTable : LifeTable) (idx : Z) (q : R) :
  tableLookup lifeTable idx = Some q -> In q (qx lifeTable).
Proof.
  unfold tableLookup, js_index.
  destruct (js_last (ages lifeTable)) as [lastAge|]; [|discriminate].
  destruct (Z.min idx lastAge <? 0)%Z; [discriminate|].
  apply nth_error_In.
Qed.

(** ** Lists grown by [push] *)

Lemma js_last_snoc {A : Type} (l : list A) (x : A) : js_last (l ++ [x]) = Some x.
Proof.
  unfold js_last. rewrite length_app. simpl.
  replace (length l + 1 - 1)%nat with (length l) by lia.
  rewrite nth_error_app2 by lia. now rewrite Nat.sub_diag.
Qed.

Lemma nth_error_snoc_head {A : Type} (l : list A) (x v : A) :
  nth_error l 0 = Some v -> nth_error (l ++ [x]) 0 = Some v.
Proof. destruct l; simpl; [discriminate | trivial]. Qed.

Lemma nonincreasing_snoc (l : list R) (s x : R) :
  nonincreasing l -> js_last l = Some s -> x <= s -> nonincreasing (l ++ [x]).
Proof.
  intros Hl Hlast Hx i a b Ha Hb.
  destruct (Nat.lt_ge_cases (S i) (length l)) as [Hi | Hi].
  - rewrite nth_error_app1 in Ha, Hb by lia. eapply Hl; eassumption.
  - assert (Hlen : length (l ++ [x]) = S (length l))
      by (rewrite length_app; simpl; lia).
    assert (Hlt : (S i < length (l ++ [x]))%nat)
      by (apply nth_error_Some; congruence).
    assert (Hi' : S i = length l) by lia.
    rewrite nth_error_app2 in Hb by lia.
    rewrite Hi', Nat.sub_diag in Hb. simpl in Hb. injection Hb as <-.
    rewrite nth_error_app1 in Ha by lia.
    unfold js_last in Hlast. rewrite <- Hi' in Hlast. simpl in Hlast.
    rewrite Nat.sub_0_r in Hlast. rewrite Hlast in Ha. injection Ha as <-.
    exact Hx.
Qed.

(** ** The cohort loop *)

Section CohortInvariants.

Variable startAge : Z.
Variables startScore targetScore horizonYear optimism : R.
Variable lifeTable : LifeTable.
Variable currentYear : R.
Variable isProtocol : bool.
Variable progressQuantile : R.

Let step :=
  cohortStep startAge startScore targetScore horizonYear optimism
    lifeTable currentYear isProtocol progressQuantile.
Let loop :=
  cohortLoop startAge startScore targetScore horizonYear optimism
    lifeTable currentYear isProtocol progressQuantile.
Let init :=
  cohortInit startAge startScore targetScore horizonYear optimism
    lifeTable currentYear isProtocol progressQuantile.

(** Whatever one iteration preserves, the loop preserves. *)
Lemma cohortLoop_invariant (P : CohortState -> Prop) :
  (forall a st, P st -> P (step a st)) ->
  forall n a st, P st -> P (loop n a st).
Proof.
  intros Hstep n. induction n as [|n IH]; intros a st Hst; simpl.
  - exact Hst.
  - apply IH, Hstep, Hst.
Qed.

Lemma cohortLoop_survival_length (n : nat) (a : Z) (st : CohortState) :
  length (cs_survival (loop n a st)) = (length (cs_survival st) + n)%nat.
Proof.
  revert a st. induction n as [|n IH]; intros a st; simpl.
  - lia.
  - unfold loop in IH. rewrite IH. simpl. rewrite length_app. simpl. lia.
Qed.

(** *** Survival *)

Hypothesis qx_probabilities : Forall (fun q => 0 <= q <= 1) (qx lifeTable).

Lemma qFinalAt_range (year effectiveScore p B : R) :
  0 <= qFinalAt horizonYear optimism lifeTable currentYear isProtocol
         progressQuantile year effectiveScore p B <= 0.999.
Proof.
  unfold qFinalAt. cbv zeta.
  set (qBase := orElse (tableLookup lifeTable (Z.max 0 (js_floor B))) 0.99).
  set (mult := hazardMultAt _ _ _ _ _ _ _ _).
  assert (Hq : 0 <= qBase <= 1).
  { unfold qBase.
    destruct (tableLookup lifeTable (Z.max 0 (js_floor B))) as [q|] eqn:Hl.
    - simpl. apply tableLookup_In in Hl.
      rewrite Forall_forall in qx_probabilities.
      now apply qx_probabilities.
    - simpl. lra. }
  pose proof (qToH_nonneg qBase Hq) as Hh.
  assert (Hc : 0.05 <= Rmax 0.05 (Rmin 2.5 mult)) by apply Rmax_l.
  assert (Hf : 0 <= qToH qBase * Rmax 0.05 (Rmin 2.5 mult)) by nra.
  pose proof (hToQ_range _ Hf) as Hr.
  cmp_cases.
Qed.

Lemma SurvivalInv_init : SurvivalInv init.
Proof.
  unfold SurvivalInv, init, cohortInit. cbv zeta. simpl.
  repeat split.
  - lra.
  - unfold js_last. simpl. f_equal. lra.
  - intros [|i] x y Hx Hy; simpl in Hy; [discriminate|].
    destruct i; discriminate.
Qed.

Lemma SurvivalInv_step (a : Z) (st : CohortState) :
  SurvivalInv st -> SurvivalInv (step a st).
Proof.
  intros (HS & Hlast & Hhead & Hmono).
  unfold step, cohortStep. cbv zeta.
  set (year := currentYear + IZR (a - startAge)).
  set (eff := effectiveScoreAt _ _ _ _ _).
  set (p := paceAt _ _ _ _ _ _ _ _).
  pose proof (qFinalAt_range year eff p (cs_B st)) as Hq.
  set (qFinal := qFinalAt _ _ _ _ _ _ _ _ _ _) in *.
  unfold SurvivalInv. simpl.
  repeat split.
  - nra.
  - apply js_last_snoc.
  - now apply nth_error_snoc_head.
  - eapply nonincreasing_snoc; [exact Hmono | exact Hlast | nra].
Qed.

Lemma SurvivalInv_loop (n : nat) (a : Z) : SurvivalInv (loop n a init).
Proof.
  apply cohortLoop_invariant; [apply SurvivalInv_step | apply SurvivalInv_init].
Qed.


(** *** Pace *)

Hypothesis start_score_ge_1 : 1 <= startScore.

Lemma frailty_progress_range (year : R) :
  -0.50 <= getFrailtyMultiplier startScore
           * getProgressMultiplier year startScore 50 optimism horizonYear
               currentYear <= 2.00.
Proof.
  pose proof (getFrailtyMultiplier_pos startScore) as Hz0.
  pose proof (getFrailtyMultiplier_le startScore start_score_ge_1) as Hz1.
  pose proof (getProgressMultiplier_range year startScore 50 optimism
                horizonYear currentYear) as Hr.
  nra.
Qed.

Lemma paceAt_range (year : R) :
  -0.50 <= paceAt targetScore horizonYear optimism currentYear isProtocol
             progressQuantile year
             (effectiveScoreAt startScore targetScore currentYear isProtocol
                year) <= 2.00.
Proof.
  unfold paceAt, effectiveScoreAt. cbv zeta.
  destruct isProtocol.
  - apply getPaceOfAging_range.
  - simpl. apply frailty_progress_range.
Qed.

Lemma PaceInv_init : PaceInv init.
Proof.
  unfold PaceInv, init, cohortInit. cbv zeta. simpl.
  constructor; [|constructor].
  destruct isProtocol.
  - apply getPaceOfAging_range.
  - apply frailty_progress_range.
Qed.

Lemma PaceInv_step (a : Z) (st : CohortState) :
  PaceInv st -> PaceInv (step a st).
Proof.
  intros H. unfold PaceInv, step, cohortStep. cbv zeta. simpl.
  apply Forall_app. split; [exact H|].
  constructor; [apply paceAt_range | constructor].
Qed.

Lemma PaceInv_loop (n : nat) (a : Z) : PaceInv (loop n a init).
Proof.
  apply cohortLoop_invariant; [apply PaceInv_step | apply PaceInv_init].
Qed.

End CohortInvariants.

(** C3: when the death probabilities of the life table lie in [0,1], the
    survival sequence returned by [simulateCohort] starts at 1, has one
    entry per simulated age, and never increases from one index to the
    next.  (The preconditions on the scores and on optimism are not
    needed.) *)
Theorem survival_non_increasing
    (startAge : Z) (sex : Sex)
    (startScore targetScore horizonYear optimism : R)
    (lifeTable : LifeTable) (currentYear : R) (isProtocol : bool)
    (progressQuantile : R)
    (Hqx : Forall (fun q => 0 <= q <= 1) (qx lifeTable)) :
  let sv := survival (simulateCohort startAge sex startScore targetScore
                        horizonYear optimism lifeTable currentYear
                        isProtocol progressQuantile) in
  nth_error sv 0 = Some 1
  /\ length sv = S (Z.to_nat (MAX_AGE_INTERNAL - startAge))
  /\ forall (i : nat) (x y : R),
       nth_error sv i = Some x -> nth_error sv (S i) = Some y -> y <= x.
Proof.
  intros sv. unfold sv, simulateCohort. cbv zeta. cbn [survival].
  pose proof (SurvivalInv_loop startAge startScore targetScore horizonYear
                optimism lifeTable currentYear isProtocol progressQuantile
                Hqx (Z.to_nat (MAX_AGE_INTERNAL - startAge)) startAge)
    as (_ & _ & Hhead & Hmono).
  split; [exact Hhead | split; [| exact Hmono]].
  rewrite cohortLoop_survival_length. reflexivity.
Qed.

Lemma survival_non_increasing_witness :
  let lifeTable :=
    mkLifeTable [0; 1; 2]%Z [0.006; 0.001; 0.5] String.EmptyString 2021 in
  let sv := survival (simulateCohort 35 female 50 75 2100 0 lifeTable 2024
                        true 50) in
  nth_error sv 0 = Some 1
  /\ length sv = S (Z.to_nat (MAX_AGE_INTERNAL - 35))
  /\ forall (i : nat) (x y : R),
       nth_error sv i = Some x -> nth_error sv (S i) = Some y -> y <= x.
Proof.
  apply (survival_non_increasing 35 female 50 75 2100 0
           (mkLifeTable [0; 1; 2]%Z [0.006; 0.001; 0.5] String.EmptyString
              2021) 2024 true 50).
  simpl. repeat constructor; lra.
Defined.

(** C6: with [startScore >= 1] (so on the documented domain: scores in
    1..99, optimism in -10..5) every entry of the pace sequence returned by
    [simulateCohort] lies in [-0.50, 2.00], on the protocol path, where
    [getPaceOfAging] clamps, and on the non-protocol path, where the
    product of the frailty and progress multipliers stays below
    1.5 * 1.20. *)
Theorem pace_within_bounds
    (startAge : Z) (sex : Sex)
    (startScore targetScore horizonYear optimism : R)
    (lifeTable : LifeTable) (currentYear : R) (isProtocol : bool)
    (progressQuantile : R)
    (Hstart : 1 <= startScore <= 99)
    (Htarget : 1 <= targetScore <= 99)
    (Hopt : -10 <= optimism <= 5) :
  Forall (fun p => -0.50 <= p <= 2.00)
    (pace (simulateCohort startAge sex startScore targetScore horizonYear
             optimism lifeTable currentYear isProtocol progressQuantile)).
Proof.
  unfold simulateCohort. cbv zeta. cbn [pace].
  apply (PaceInv_loop startAge startScore targetScore horizonYear optimism
           lifeTable currentYear isProtocol progressQuantile
           (proj1 Hstart)).
Qed.

Lemma pace_within_bounds_witness :
  Forall (fun p => -0.50 <= p <= 2.00)
    (pace (simulateCohort 35 female 50 75 2100 0
             (mkLifeTable [0; 1; 2]%Z [0.006; 0.001; 0.5] String.EmptyString
                2021) 2024 false 50)).
Proof.
  apply (pace_within_bounds 35 female 50 75 2100 0
           (mkLifeTable [0; 1; 2]%Z [0.006; 0.001; 0.5] String.EmptyString
              2021) 2024 false 50); lra.
Defined.

(** ** The progress multiplier as a function of optimism *)

Lemma sigmoid_range (x : R) : 0 < sigmoid x < 1.
Proof.
  unfold sigmoid. pose proof (exp_pos (- x)) as Hp. split.
  - apply Rdiv_lt_0_compat; lra.
  - apply (Rmult_lt_reg_r (1 + exp (- x))); [lra|].
    unfold Rdiv. rewrite Rmult_assoc, Rinv_l; lra.
Qed.

Lemma getUptakeFactor_range (p : R) : 0.6 < getUptakeFactor p < 1.4.
Proof.
  unfold getUptakeFactor.
  pose proof (sigmoid_range ((p - 0.5) / UPTAKE_SIGMOID_WIDTH)). lra.
Qed.

Lemma getZScoreForCentile_range (c : R) :
  -1.644853626 <= getZScoreForCentile c <= 1.644853626.
Proof.
  unfold getZScoreForCentile, Z_SCORES.
  repeat (destruct (Req_dec_T c _); [simpl; lra|]).
  simpl. lra.
Qed.

Lemma getZScoreForCentile_50 : getZScoreForCentile 50 = 0.
Proof.
  unfold getZScoreForCentile, Z_SCORES.
  destruct (Req_dec_T 50 5); [lra|].
  destruct (Req_dec_T 50 25); [lra|].
  destruct (Req_dec_T 50 50); [reflexivity | lra].
Qed.

Lemma optimismFactoryLimited_le_1 (opt : R) : optimismFactoryLimited opt <= 1.
Proof. unfold optimismFactoryLimited. cmp_cases. Qed.

Lemma optimismFactoryLimited_linear (opt : R) :
  -10 <= opt <= 10 -> optimismFactoryLimited opt = opt * 0.1.
Proof. intros H. unfold optimismFactoryLimited. cmp_cases. Qed.

Lemma getProgressMultiplier_locked
    (year score quantileKey optimism horizonYear currentYear : R) :
  optimism <= -10 ->
  getProgressMultiplier year score quantileKey optimism horizonYear
    currentYear = 1.
Proof.
  intros H. unfold getProgressMultiplier. cbv zeta.
  destruct (Rleb (Rmax 0 (Rmin year horizonYear - currentYear)) 0).
  - lra.
  - rewrite Rleb_true by assumption. lra.
Qed.

Lemma getProgressMultiplier_not_started
    (year score quantileKey optimism horizonYear currentYear : R) :
  Rmax 0 (Rmin year horizonYear - currentYear) <= 0 ->
  getProgressMultiplier year score quantileKey optimism horizonYear
    currentYear = 1.
Proof.
  intros H. unfold getProgressMultiplier. cbv zeta.
  rewrite Rleb_true by assumption. lra.
Qed.

(** Past the two guards the multiplier is the clamped exponential. *)
Lemma getProgressMultiplier_active
    (year score quantileKey optimism horizonYear currentYear : R) :
  let elapsedYears := Rmax 0 (Rmin year horizonYear - currentYear) in
  0 < elapsedYears -> -10 < optimism ->
  getProgressMultiplier year score quantileKey optimism horizonYear
    currentYear
  = Rmin 1.20 (Rmax 0.01
      (exp (- (PROGRESS_RATE_BASE * (1 + optimism * 0.1)) * elapsedYears
            * getUptakeFactor (score / 100)
            + getZScoreForCentile quantileKey
              * (PROGRESS_SIGMA0 * sqrt elapsedYears
                 * (1 - 0.1 * optimismFactoryLimited optimism))))).
Proof.
  intros e He Ho. unfold getProgressMultiplier. cbv zeta. fold e.
  rewrite !Rleb_false by assumption. reflexivity.
Qed.

Lemma sqrt_le_self (x : R) : 1 <= x -> 0 <= sqrt x <= x.
Proof.
  intros H. pose proof (sqrt_pos x) as H0.
  pose proof (sqrt_sqrt x ltac:(lra)) as Hs.
  assert (H1 : 1 <= sqrt x).
  { rewrite <- sqrt_1. apply sqrt_le_1_alt. exact H. }
  split; [exact H0 | nra].
Qed.

(** Elapsed time between integer calendar years is 0 or at least a year. *)
Lemma elapsed_integer_years (year horizonYear currentYear : Z) :
  let elapsedYears :=
    Rmax 0 (Rmin (IZR year) (IZR horizonYear) - IZR currentYear) in
  elapsedYears <= 0 \/ 1 <= elapsedYears.
Proof.
  intros e. unfold e.
  assert (Hz : forall k : Z, Rmax 0 (IZR k) <= 0 \/ 1 <= Rmax 0 (IZR k)).
  { intros k. destruct (Z_le_gt_dec k 0) as [Hk | Hk].
    - left. apply IZR_le in Hk. rewrite Rmax_left; lra.
    - right. assert (Hk1 : (1 <= k)%Z) by lia. apply IZR_le in Hk1.
      rewrite Rmax_right; lra. }
  unfold Rmin. destruct (Rle_dec (IZR year) (IZR horizonYear));
    rewrite <- minus_IZR; apply Hz.
Qed.

(** More optimism, smaller multiplier, once a full year has elapsed. *)
Lemma getProgressMultiplier_antitone_active
    (year score quantileKey o1 o2 horizonYear currentYear : R) :
  1 <= Rmax 0 (Rmin year horizonYear - currentYear) ->
  -10 < o1 -> o1 <= o2 -> o2 <= 5 ->
  getProgressMultiplier year score quantileKey o2 horizonYear currentYear
  <= getProgressMultiplier year score quantileKey o1 horizonYear currentYear.
Proof.
  intros He H1 H12 H2.
  rewrite !getProgressMultiplier_active by lra.
  set (e := Rmax 0 (Rmin year horizonYear - currentYear)) in *.
  apply clamp_mono, exp_le_mono.
  rewrite !optimismFactoryLimited_linear by lra.
  pose proof (getUptakeFactor_range (score / 100)) as Hu.
  pose proof (getZScoreForCentile_range quantileKey) as Hz.
  pose proof (sqrt_le_self e He) as Hs.
  set (u := getUptakeFactor (score / 100)) in *.
  set (z := getZScoreForCentile quantileKey) in *.
  set (s := sqrt e) in *.
  unfold PROGRESS_RATE_BASE, PROGRESS_SIGMA0.
  assert (Hslope : 0 <= 0.0018 * (e * u) + 0.0003 * (z * s)) by nra.
  assert (Hgap : 0 <= (o2 - o1) * (0.0018 * (e * u) + 0.0003 * (z * s)))
    by (apply Rmult_le_pos; lra).
  nra.
Qed.

(** With a z-score that is not positive the multiplier never exceeds the
    no-progress value 1. *)
Lemma getProgressMultiplier_le_1
    (year score quantileKey optimism horizonYear currentYear : R) :
  getZScoreForCentile quantileKey <= 0 ->
  getProgressMultiplier year score quantileKey optimism horizonYear
    currentYear <= 1.
Proof.
  intros Hz.
  set (e := Rmax 0 (Rmin year horizonYear - currentYear)).
  destruct (Rle_dec e 0) as [He | He].
  { rewrite getProgressMultiplier_not_started by exact He. lra. }
  destruct (Rle_dec optimism (-10)) as [Ho | Ho].
  { rewrite getProgressMultiplier_locked by exact Ho. lra. }
  rewrite getProgressMultiplier_active by (fold e; lra). fold e.
  pose proof (getUptakeFactor_range (score / 100)) as Hu.
  pose proof (optimismFactoryLimited_le_1 optimism) as Hl.
  pose proof (sqrt_pos e) as Hs.
  set (x := _ + _).
  assert (Hx : x <= 0).
  { unfold x, PROGRESS_RATE_BASE, PROGRESS_SIGMA0.
    assert (Hmu : 0 <= 0.018 * (1 + optimism * 0.1) * e
                       * getUptakeFactor (score / 100)).
    { apply Rmult_le_pos; [apply Rmult_le_pos|]; nra. }
    assert (Hsg : 0 <= 0.030 * sqrt e
                       * (1 - 0.1 * optimismFactoryLimited optimism)).
    { apply Rmult_le_pos; nra. }
    nra. }
  pose proof (exp_nonpos_le_1 x Hx) as Hexp. pose proof (exp_pos x).
  cmp_cases.
Qed.

(** C5, as the code has it: for fixed integer calendar years, score and
    quantile key the progress multiplier is non-increasing (not
    non-decreasing) as optimism increases: over -10..5 when the z-score of
    the quantile key is not positive (keys 5, 25, 50 and unknown keys), and
    over the range above -10 for every key. *)
Theorem progress_multiplier_antitone
    (year horizonYear currentYear : Z) (score quantileKey o1 o2 : R)
    (Hrange : -10 <= o1 /\ o1 <= o2 <= 5)
    (Hlock : -10 < o1 \/ getZScoreForCentile quantileKey <= 0) :
  getProgressMultiplier (IZR year) score quantileKey o2 (IZR horizonYear)
    (IZR currentYear)
  <= getProgressMultiplier (IZR year) score quantileKey o1 (IZR horizonYear)
       (IZR currentYear).
Proof.
  destruct Hrange as (Hlo & H12 & Hhi).
  destruct (elapsed_integer_years year horizonYear currentYear) as [He | He].
  - rewrite !getProgressMultiplier_not_started by exact He. lra.
  - destruct (Rlt_dec (-10) o1) as [H1 | H1].
    + now apply getProgressMultiplier_antitone_active.
    + destruct Hlock as [Hcontra | Hz]; [lra|].
      rewrite (getProgressMultiplier_locked _ _ _ o1) by lra.
      now apply getProgressMultiplier_le_1.
Qed.

Lemma progress_multiplier_antitone_witness :
  getProgressMultiplier (IZR 2034) 50 50 5 (IZR 2100) (IZR 2024)
  <= getProgressMultiplier (IZR 2034) 50 50 0 (IZR 2100) (IZR 2024).
Proof.
  apply (progress_multiplier_antitone 2034 2100 2024 50 50 0 5).
  - lra.
  - left. lra.
Defined.

(** C5 as stated fails: ten years out, at score 50 and the median quantile,
    raising optimism from 0 to 5 lowers the multiplier from [exp (-0.18)]
    to [exp (-0.27)]. *)
Lemma progress_multiplier_not_monotone :
  ~ (getProgressMultiplier 2034 50 50 0 2100 2024
     <= getProgressMultiplier 2034 50 50 5 2100 2024).
Proof.
  assert (He : Rmax 0 (Rmin 2034 2100 - 2024) = 10).
  { rewrite Rmin_left by lra. rewrite Rmax_right; lra. }
  assert (Hu : getUptakeFactor (50 / 100) = 1).
  { unfold getUptakeFactor, sigmoid, UPTAKE_SIGMOID_WIDTH.
    replace (- ((50 / 100 - 0.5) / 0.12)) with 0 by lra.
    rewrite exp_0. lra. }
  rewrite !getProgressMultiplier_active by (rewrite ?He; lra).
  rewrite He, Hu, getZScoreForCentile_50.
  unfold PROGRESS_RATE_BASE.
  replace (- (0.018 * (1 + 0 * 0.1)) * 10 * 1 + 0 * _) with (-0.18) by lra.
  replace (- (0.018 * (1 + 5 * 0.1)) * 10 * 1 + 0 * _) with (-0.27) by lra.
  pose proof (exp_increasing (-0.27) (-0.18) ltac:(lra)) as Hlt.
  pose proof (exp_nonpos_le_1 (-0.18) ltac:(lra)) as H1.
  pose proof (exp_ineq1_le (-0.27)) as H2.
  cmp_cases.
Qed.

(** * Further properties of the engine *)

(** ** Frailty *)

(** X2: the frailty multiplier is strictly decreasing in the score. *)
Theorem getFrailtyMultiplier_decreasing (s1 s2 : R) (H : s1 < s2) :
  getFrailtyMultiplier s2 < getFrailtyMultiplier s1.
Proof.
  unfold getFrailtyMultiplier, FRAILTY_A. cbv zeta.
  apply exp_increasing. lra.
Qed.

Lemma getFrailtyMultiplier_decreasing_witness :
  getFrailtyMultiplier 75 < getFrailtyMultiplier 25.
Proof. apply (getFrailtyMultiplier_decreasing 25 75). lra. Defined.

Lemma getFrailtyMultiplier_50 : getFrailtyMultiplier 50 = 1.
Proof.
  unfold getFrailtyMultiplier, FRAILTY_A. cbv zeta.
  replace (0.65 * (0.5 - 50 / 100)) with 0 by lra. apply exp_0.
Qed.

(** X3: score 50 is the neutral point of the frailty multiplier: above 1
    below it, exactly 1 at it, below 1 above it. *)
Theorem getFrailtyMultiplier_neutral_at_50 (score : R) :
  (score < 50 -> 1 < getFrailtyMultiplier score)
  /\ (score = 50 -> getFrailtyMultiplier score = 1)
  /\ (50 < score -> getFrailtyMultiplier score < 1).
Proof.
  repeat split; intros H.
  - rewrite <- getFrailtyMultiplier_50.
    unfold getFrailtyMultiplier, FRAILTY_A. cbv zeta.
    apply exp_increasing. lra.
  - subst. apply getFrailtyMultiplier_50.
  - rewrite <- getFrailtyMultiplier_50.
    unfold getFrailtyMultiplier, FRAILTY_A. cbv zeta.
    apply exp_increasing. lra.
Qed.

(** ** Uptake *)

Lemma sigmoid_increasing (x y : R) : x < y -> sigmoid x < sigmoid y.
Proof.
  intros H. unfold sigmoid, Rdiv. rewrite !Rmult_1_l.
  pose proof (exp_pos (- x)). pose proof (exp_pos (- y)).
  apply Rinv_lt_contravar; [nra|].
  apply Rplus_lt_compat_l, exp_increasing. lra.
Qed.

(** X4: the uptake factor stays strictly between 0.6 and 1.4 and is
    strictly increasing in [p]. *)
Theorem getUptakeFactor_increasing (p1 p2 : R) (H : p1 < p2) :
  0.6 < getUptakeFactor p1 /\ getUptakeFactor p1 < getUptakeFactor p2
  /\ getUptakeFactor p2 < 1.4.
Proof.
  pose proof (getUptakeFactor_range p1). pose proof (getUptakeFactor_range p2).
  repeat split; try lra.
  unfold getUptakeFactor, UPTAKE_SIGMOID_WIDTH.
  pose proof (sigmoid_increasing ((p1 - 0.5) / 0.12) ((p2 - 0.5) / 0.12)
                ltac:(lra)). lra.
Qed.

Lemma getUptakeFactor_increasing_witness :
  0.6 < getUptakeFactor 0.25 /\ getUptakeFactor 0.25 < getUptakeFactor 0.75
  /\ getUptakeFactor 0.75 < 1.4.
Proof. apply (getUptakeFactor_increasing 0.25 0.75). lra. Defined.

(** ** Quantile z-scores *)

(** X5: the z-score table is antisymmetric about the median: the key
    [100 - c] carries the opposite z-score of the key [c], for every number
    [c] (keys outside the table give 0 on both sides). *)
Theorem getZScoreForCentile_antisymmetric (c : R) :
  getZScoreForCentile (100 - c) = - getZScoreForCentile c.
Proof.
  unfold getZScoreForCentile, Z_SCORES.
  repeat match goal with
    | |- context [Req_dec_T ?a ?b] => destruct (Req_dec_T a b); try lra
    end;
  simpl; lra.
Qed.

(** ** Progress multiplier *)

(** X6: no progress is applied up to the current year, nor when the horizon
    is not after the current year: the multiplier is exactly 1. *)
Theorem getProgressMultiplier_before_start
    (year score quantileKey optimism horizonYear currentYear : R)
    (H : year <= currentYear \/ horizonYear <= currentYear) :
  getProgressMultiplier year score quantileKey optimism horizonYear
    currentYear = 1.
Proof.
  apply getProgressMultiplier_not_started.
  destruct H; cmp_cases.
Qed.

Lemma getProgressMultiplier_before_start_witness :
  getProgressMultiplier 2020 50 95 5 2100 2024 = 1.
Proof.
  apply (getProgressMultiplier_before_start 2020 50 95 5 2100 2024).
  left. lra.
Defined.

(** X7: progress is frozen at the horizon: from the horizon year on the
    multiplier keeps the value it has at the horizon year. *)
Theorem getProgressMultiplier_frozen_after_horizon
    (year score quantileKey optimism horizonYear currentYear : R)
    (H : horizonYear <= year) :
  getProgressMultiplier year score quantileKey optimism horizonYear
    currentYear
  = getProgressMultiplier horizonYear score quantileKey optimism horizonYear
      currentYear.
Proof.
  unfold getProgressMultiplier. cbv zeta.
  rewrite (Rmin_right year horizonYear) by exact H.
  rewrite (Rmin_left horizonYear horizonYear) by lra.
  reflexivity.
Qed.

Lemma getProgressMultiplier_frozen_after_horizon_witness :
  getProgressMultiplier 2150 50 50 0 2100 2024
  = getProgressMultiplier 2100 50 50 0 2100 2024.
Proof.
  apply (getProgressMultiplier_frozen_after_horizon 2150 50 50 0 2100 2024).
  lra.
Defined.

Lemma progress_sigma_nonneg (elapsedYears optimism : R) :
  0 <= PROGRESS_SIGMA0 * sqrt elapsedYears
       * (1 - 0.1 * optimismFactoryLimited optimism).
Proof.
  pose proof (sqrt_pos elapsedYears).
  pose proof (optimismFactoryLimited_le_1 optimism).
  unfold PROGRESS_SIGMA0. apply Rmult_le_pos; nra.
Qed.

(** A larger z-score gives a larger multiplier, everything else equal. *)
Lemma getProgressMultiplier_mono_z
    (year score q1 q2 optimism horizonYear currentYear : R) :
  getZScoreForCentile q1 <= getZScoreForCentile q2 ->
  getProgressMultiplier year score q1 optimism horizonYear currentYear
  <= getProgressMultiplier year score q2 optimism horizonYear currentYear.
Proof.
  intros Hz.
  set (e := Rmax 0 (Rmin year horizonYear - currentYear)).
  destruct (Rle_dec e 0) as [He | He].
  { rewrite !getProgressMultiplier_not_started by exact He. lra. }
  destruct (Rle_dec optimism (-10)) as [Ho | Ho].
  { rewrite !getProgressMultiplier_locked by exact Ho. lra. }
  rewrite !getProgressMultiplier_active by (fold e; lra). fold e.
  apply clamp_mono, exp_le_mono.
  pose proof (progress_sigma_nonneg e optimism). nra.
Qed.

Lemma getZScoreForCentile_keys :
  getZScoreForCentile 5 = -1.644853626
  /\ getZScoreForCentile 25 = -0.674489750
  /\ getZScoreForCentile 75 = 0.674489750
  /\ getZScoreForCentile 95 = 1.644853626.
Proof.
  unfold getZScoreForCentile, Z_SCORES.
  repeat split;
    repeat match goal with
      | |- context [Req_dec_T ?a ?b] => destruct (Req_dec_T a b); try lra
      end;
    simpl; lra.
Qed.

(** X8: the five quantile trajectories never cross: for every year,
    score, optimism, horizon and current year the multipliers for the keys
    5, 25, 50, 75, 95 are in non-decreasing order. *)
Theorem getProgressMultiplier_quantiles_ordered
    (year score optimism horizonYear currentYear : R) :
  let r q := getProgressMultiplier year score q optimism horizonYear
               currentYear in
  r 5 <= r 25 /\ r 25 <= r 50 /\ r 50 <= r 75 /\ r 75 <= r 95.
Proof.
  intros r. unfold r.
  destruct getZScoreForCentile_keys as (H5 & H25 & H75 & H95).
  pose proof getZScoreForCentile_50 as H50.
  repeat split; apply getProgressMultiplier_mono_z; lra.
Qed.

(** Along the years, for a z-score that is not positive. *)
Lemma getProgressMultiplier_antitone_year
    (year1 year2 score quantileKey optimism horizonYear currentYear : R)
    (Hz : getZScoreForCentile quantileKey <= 0)
    (Hy : year1 <= year2) :
  getProgressMultiplier year2 score quantileKey optimism horizonYear
    currentYear
  <= getProgressMultiplier year1 score quantileKey optimism horizonYear
       currentYear.
Proof.
  set (e1 := Rmax 0 (Rmin year1 horizonYear - currentYear)).
  set (e2 := Rmax 0 (Rmin year2 horizonYear - currentYear)).
  assert (He12 : e1 <= e2) by (unfold e1, e2; cmp_cases).
  destruct (Rle_dec optimism (-10)) as [Ho | Ho].
  { rewrite !getProgressMultiplier_locked by exact Ho. lra. }
  destruct (Rle_dec e1 0) as [He1 | He1].
  { rewrite (getProgressMultiplier_not_started year1) by exact He1.
    now apply getProgressMultiplier_le_1. }
  rewrite !getProgressMultiplier_active by (fold e1 e2; lra). fold e1 e2.
  apply clamp_mono, exp_le_mono.
  pose proof (getUptakeFactor_range (score / 100)) as Hu.
  pose proof (optimismFactoryLimited_le_1 optimism) as Hl.
  pose proof (sqrt_le_1_alt e1 e2 He12) as Hs.
  pose proof (sqrt_pos e1) as Hs1.
  set (u := getUptakeFactor (score / 100)) in *.
  set (z := getZScoreForCentile quantileKey) in *.
  set (c := 1 - 0.1 * optimismFactoryLimited optimism).
  assert (Hc : 0 <= c) by (unfold c; lra).
  unfold PROGRESS_RATE_BASE, PROGRESS_SIGMA0.
  assert (Hmu : 0.018 * (1 + optimism * 0.1) * u * e1
                <= 0.018 * (1 + optimism * 0.1) * u * e2).
  { apply Rmult_le_compat_l; [|exact He12].
    apply Rmult_le_pos; nra. }
  assert (Hsg : 0.030 * c * sqrt e1 <= 0.030 * c * sqrt e2).
  { apply Rmult_le_compat_l; [nra | exact Hs]. }
  nra.
Qed.

(** X9: for a quantile key whose z-score is not positive (5, 25, 50 and
    keys outside the table) the multiplier never rises again as the years
    go by. *)
Theorem getProgressMultiplier_declines_over_time
    (year1 year2 score quantileKey optimism horizonYear currentYear : R)
    (Hz : getZScoreForCentile quantileKey <= 0)
    (Hy : year1 <= year2) :
  getProgressMultiplier year2 score quantileKey optimism horizonYear
    currentYear
  <= getProgressMultiplier year1 score quantileKey optimism horizonYear
       currentYear.
Proof. now apply getProgressMultiplier_antitone_year. Qed.

Lemma getProgressMultiplier_declines_over_time_witness :
  getProgressMultiplier 2050 50 50 0 2100 2024
  <= getProgressMultiplier 2030 50 50 0 2100 2024.
Proof.
  apply (getProgressMultiplier_declines_over_time 2030 2050 50 50 0 2100 2024).
  - rewrite getZScoreForCentile_50. lra.
  - lra.
Defined.

(** ** LEV arrival distribution *)

Lemma levShift_range (s : R) : 0 <= levShift s <= 60.
Proof. unfold levShift. cbv zeta. cmp_cases. Qed.

Lemma levShift_mono (s1 s2 : R) : s1 <= s2 -> levShift s2 <= levShift s1.
Proof. intros H. unfold levShift. cbv zeta. cmp_cases. Qed.

(** X10: the adoption lag is between 0 and 60 years and never grows with
    the score, across the four bands and their boundaries. *)
Theorem levShift_antitone (s1 s2 : R) (H : s1 <= s2) :
  0 <= levShift s2 /\ levShift s2 <= levShift s1 /\ levShift s1 <= 60.
Proof.
  pose proof (levShift_range s1). pose proof (levShift_range s2).
  pose proof (levShift_mono s1 s2 H). lra.
Qed.

Lemma levShift_antitone_witness :
  0 <= levShift 80 /\ levShift 80 <= levShift 30 /\ levShift 30 <= 60.
Proof. apply (levShift_antitone 30 80). lra. Defined.

Lemma levSpeedFactor_pos (optimism : R) : 0.001 <= levSpeedFactor optimism.
Proof. unfold levSpeedFactor. cbv zeta. cmp_cases. Qed.

Lemma levSpeedFactor_mono (o1 o2 : R) :
  o1 <= o2 -> levSpeedFactor o1 <= levSpeedFactor o2.
Proof. intros H. unfold levSpeedFactor. cbv zeta. cmp_cases. Qed.

Lemma levBaseDelay95_nonneg (currentYear : R) : 0 <= levBaseDelay95 currentYear.
Proof. unfold levBaseDelay95. apply Rmax_l. Qed.

Lemma medianYear_formula (targetScore optimism currentYear : R) :
  -10 < optimism ->
  medianYear (computeLevDistribution targetScore optimism currentYear)
  = currentYear
    + (levBaseDelay95 currentYear + levShift targetScore)
      / levSpeedFactor optimism.
Proof.
  intros H. unfold computeLevDistribution. rewrite Rleb_false by lra.
  reflexivity.
Qed.

Lemma div_pos_antitone (t s1 s2 : R) :
  0 <= t -> 0 < s1 -> s1 <= s2 -> t / s2 <= t / s1.
Proof.
  intros Ht Hs H. unfold Rdiv. apply Rmult_le_compat_l; [exact Ht|].
  apply Rinv_le_contravar; lra.
Qed.

(** X11: with progress enabled the speed factor is at least 0.001, so the
    division is defined, and the median LEV year is never before the
    current year. *)
Theorem medianYear_not_before_now (targetScore optimism currentYear : R)
    (Hopt : -10 < optimism) :
  0.001 <= levSpeedFactor optimism
  /\ currentYear
     <= medianYear (computeLevDistribution targetScore optimism currentYear).
Proof.
  pose proof (levSpeedFactor_pos optimism) as Hs.
  split; [exact Hs|].
  rewrite medianYear_formula by exact Hopt.
  pose proof (levBaseDelay95_nonneg currentYear).
  pose proof (levShift_range targetScore).
  assert (0 <= (levBaseDelay95 currentYear + levShift targetScore)
               / levSpeedFactor optimism).
  { apply Rmult_le_pos; [lra|]. left. apply Rinv_0_lt_compat. lra. }
  lra.
Qed.

Lemma medianYear_not_before_now_witness :
  0.001 <= levSpeedFactor (-9.95)
  /\ 2024 <= medianYear (computeLevDistribution 50 (-9.95) 2024).
Proof. apply (medianYear_not_before_now 50 (-9.95) 2024). lra. Defined.

Lemma medianYear_mono_optimism
    (targetScore o1 o2 currentYear : R) (H1 : -10 < o1) (H12 : o1 <= o2) :
  medianYear (computeLevDistribution targetScore o2 currentYear)
  <= medianYear (computeLevDistribution targetScore o1 currentYear).
Proof.
  rewrite !medianYear_formula by lra.
  pose proof (levBaseDelay95_nonneg currentYear).
  pose proof (levShift_range targetScore).
  pose proof (levSpeedFactor_pos o1).
  pose proof (levSpeedFactor_mono o1 o2 H12).
  pose proof (div_pos_antitone
                (levBaseDelay95 currentYear + levShift targetScore)
                (levSpeedFactor o1) (levSpeedFactor o2)
                ltac:(lra) ltac:(lra) ltac:(lra)).
  lra.
Qed.

Lemma medianYear_mono_score
    (s1 s2 optimism currentYear : R) (Hopt : -10 < optimism) (H12 : s1 <= s2) :
  medianYear (computeLevDistribution s2 optimism currentYear)
  <= medianYear (computeLevDistribution s1 optimism currentYear).
Proof.
  rewrite !medianYear_formula by lra.
  pose proof (levShift_mono s1 s2 H12) as Hs.
  pose proof (levSpeedFactor_pos optimism) as Hf.
  assert (Hinv : 0 < / levSpeedFactor optimism)
    by (apply Rinv_0_lt_compat; lra).
  unfold Rdiv.
  assert ((levBaseDelay95 currentYear + levShift s2)
            * / levSpeedFactor optimism
          <= (levBaseDelay95 currentYear + levShift s1)
               * / levSpeedFactor optimism).
  { apply Rmult_le_compat_r; lra. }
  lra.
Qed.

(** X12: with progress enabled, neither more optimism nor a higher target
    score ever moves the median LEV year later, including across the floor
    of the speed factor and across the score bands. *)
Theorem medianYear_antitone
    (s1 s2 o1 o2 currentYear : R)
    (Hopt : -10 < o1) (Ho : o1 <= o2) (Hs : s1 <= s2) :
  medianYear (computeLevDistribution s2 o2 currentYear)
  <= medianYear (computeLevDistribution s1 o1 currentYear).
Proof.
  apply Rle_trans with (medianYear (computeLevDistribution s1 o2 currentYear)).
  - apply medianYear_mono_score; [lra | exact Hs].
  - apply medianYear_mono_optimism; assumption.
Qed.

Lemma medianYear_antitone_witness :
  medianYear (computeLevDistribution 95 5 2024)
  <= medianYear (computeLevDistribution 10 (-9.95) 2024).
Proof. apply (medianYear_antitone 10 95 (-9.95) 5 2024); lra. Defined.

(** X13: the steepness [LEV_K] makes every five years past the median
    multiply the odds of arrival by four: the CDF is [4^n / (1 + 4^n)]
    at [5 n] years after the median (1/2 at the median, 4/5 five years on,
    16/17 ten years on). *)
Theorem levCdf_odds_quadruple_every_5_years (m : R) (n : nat) :
  levCdf (m + 5 * INR n) m = 4 ^ n / (1 + 4 ^ n).
Proof.
  pose proof (levCdf_complement (m + 5 * INR n) m) as Hc.
  replace (m + 5 * INR n - m) with (5 * INR n) in Hc by lra.
  rewrite exp_LEV_K_5n in Hc.
  assert (Hp : 0 < 4 ^ n) by (apply pow_lt; lra).
  assert (He : levCdf (m + 5 * INR n) m = 1 - 1 / (1 + 4 ^ n)) by lra.
  rewrite He. field. lra.
Qed.

(** ** Pace of aging *)

(** Rounding leaves an integer year as it is. *)
Lemma js_round_IZR (n : Z) : js_round (IZR n) = n.
Proof.
  unfold js_round. symmetry. apply Int_part_spec. lra.
Qed.

Lemma frailty_progress_pos (year score q optimism horizonYear currentYear : R) :
  0 < getFrailtyMultiplier score
      * getProgressMultiplier year score q optimism horizonYear currentYear.
Proof.
  pose proof (getFrailtyMultiplier_pos score).
  pose proof (getProgressMultiplier_range year score q optimism horizonYear
                currentYear).
  apply Rmult_lt_0_compat; lra.
Qed.

(** X14: before the rounded LEV median year, and at any year when progress
    is switched off ([optimism <= -10]), there is no rejuvenation pull: the
    pace is the frailty multiplier times the progress multiplier, capped at
    2.00, and it is strictly positive. *)
Theorem getPaceOfAging_without_pull
    (year score quantileKey optimism horizonYear currentYear levMedianYear : R)
    (H : year < IZR (js_round levMedianYear) \/ optimism <= -10) :
  getPaceOfAging year score quantileKey optimism horizonYear currentYear
    levMedianYear
  = Rmin 2.00
      (getFrailtyMultiplier score
       * getProgressMultiplier year score quantileKey optimism horizonYear
           currentYear)
  /\ 0 < getPaceOfAging year score quantileKey optimism horizonYear
           currentYear levMedianYear.
Proof.
  pose proof (frailty_progress_pos year score quantileKey optimism
                horizonYear currentYear) as Hpos.
  unfold getPaceOfAging. cbv zeta.
  assert (Hc : Rgeb year (IZR (js_round levMedianYear))
               && Rgtb optimism (-10) = false).
  { destruct H as [H | H].
    - rewrite Rgeb_false by exact H. reflexivity.
    - rewrite (Rgtb_false optimism (-10)) by exact H.
      apply andb_false_r. }
  rewrite Hc.
  set (x := getFrailtyMultiplier score * _) in *.
  replace (x - 0) with x by lra.
  rewrite (Rmax_right (-0.50) x) by lra.
  split; [reflexivity|]. cmp_cases.
Qed.

Lemma getPaceOfAging_without_pull_witness :
  getPaceOfAging 2030 50 50 (-10) 2100 2024 9999
  = Rmin 2.00
      (getFrailtyMultiplier 50
       * getProgressMultiplier 2030 50 50 (-10) 2100 2024)
  /\ 0 < getPaceOfAging 2030 50 50 (-10) 2100 2024 9999.
Proof.
  apply (getPaceOfAging_without_pull 2030 50 50 (-10) 2100 2024 9999).
  right. lra.
Defined.

Lemma exp_3_gt_11 : 11 < exp 3.
Proof.
  replace 3 with (INR 6 * 0.5) by (simpl; lra).
  rewrite exp_INR_mult.
  pose proof (exp_ineq1_le 0.5) as H.
  pose proof (pow_incr 1.5 (exp 0.5) 6 ltac:(lra)) as Hp.
  assert (H6 : 11 < 1.5 ^ 6) by (simpl; lra).
  lra.
Qed.

(** The pace once the pull is on, before the clamp. *)
Lemma getPaceOfAging_with_pull
    (year score quantileKey optimism horizonYear currentYear levMedianYear : R) :
  let yLEV := IZR (js_round levMedianYear) in
  let z := getFrailtyMultiplier score in
  yLEV <= year -> -10 < optimism ->
  getPaceOfAging year score quantileKey optimism horizonYear currentYear
    levMedianYear
  = Rmin 2.00 (Rmax (-0.50)
      (z * getProgressMultiplier year score quantileKey optimism horizonYear
             currentYear
       - (z * getProgressMultiplier yLEV score 50 optimism horizonYear
                currentYear + REJUV_EXTRA)
         * (1 - exp (- (year - yLEV) / REJUV_TAU)))).
Proof.
  intros yLEV z Hy Ho. unfold getPaceOfAging. cbv zeta.
  fold yLEV. fold z.
  rewrite Rgeb_true by exact Hy. rewrite Rgtb_true by exact Ho.
  reflexivity.
Qed.

(** X15: rejuvenation is guaranteed in the long run: with progress enabled,
    a score of at least 1 and a quantile key whose z-score is not positive
    (5, 25, 50), the pace is negative from 18 years after the rounded LEV
    median year on. *)
Theorem getPaceOfAging_negative_after_18_years
    (year score quantileKey optimism horizonYear currentYear levMedianYear : R)
    (Hscore : 1 <= score) (Hopt : -10 < optimism)
    (Hz : getZScoreForCentile quantileKey <= 0)
    (Hyear : IZR (js_round levMedianYear) + 18 <= year) :
  getPaceOfAging year score quantileKey optimism horizonYear currentYear
    levMedianYear < 0.
Proof.
  rewrite getPaceOfAging_with_pull by lra.
  set (yLEV := IZR (js_round levMedianYear)) in *.
  set (z := getFrailtyMultiplier score).
  set (rq := getProgressMultiplier year score quantileKey optimism _ _).
  set (rl := getProgressMultiplier yLEV score 50 optimism _ _).
  assert (Hz0 : 0 < z) by apply getFrailtyMultiplier_pos.
  assert (Hz1 : z <= 1.5) by (apply getFrailtyMultiplier_le; exact Hscore).
  assert (Hrl : 0.01 <= rl <= 1.20) by apply getProgressMultiplier_range.
  assert (Hrq : rq <= rl).
  { unfold rq, rl.
    apply Rle_trans with
      (getProgressMultiplier yLEV score quantileKey optimism horizonYear
         currentYear).
    - apply getProgressMultiplier_antitone_year; [exact Hz | lra].
    - apply getProgressMultiplier_mono_z. rewrite getZScoreForCentile_50.
      exact Hz. }
  set (E := exp (- (year - yLEV) / REJUV_TAU)).
  assert (HE0 : 0 < E) by apply exp_pos.
  assert (HE : E < 1 / 11).
  { unfold E, REJUV_TAU.
    apply Rle_lt_trans with (exp (Ropp 3)); [apply exp_le_mono; lra|].
    rewrite exp_Ropp. pose proof exp_3_gt_11 as H3.
    unfold Rdiv. rewrite Rmult_1_l. apply Rinv_lt_contravar; lra. }
  unfold REJUV_EXTRA.
  assert (Hq : z * rq <= z * rl) by (apply Rmult_le_compat_l; lra).
  assert (Hw : 0 < z * rl <= 1.8) by nra.
  set (w := z * rl) in *.
  assert (HwE : (w + 0.20) * E <= 2 * E)
    by (apply Rmult_le_compat_r; lra).
  assert (Hraw : z * rq - (w + 0.20) * (1 - E) < 0) by lra.
  cmp_cases.
Qed.

Lemma getPaceOfAging_negative_after_18_years_witness :
  getPaceOfAging 2073 50 50 0 2050 2024 2055 < 0.
Proof.
  apply (getPaceOfAging_negative_after_18_years 2073 50 50 0 2050 2024 2055).
  - lra.
  - lra.
  - rewrite getZScoreForCentile_50. lra.
  - rewrite (js_round_IZR 2055). lra.
Defined.

(** X16: when the progress horizon is not after the rounded LEV median
    year, the median-quantile pace after that year decays from the frozen
    base pace towards [- REJUV_EXTRA]: with [E = exp (- (year - yLEV) / TAU)]
    it is [z * r * E - 0.20 * (1 - E)] for a score of at least 1, so it
    stays above -0.20 and the clamp at -0.50 is never active. *)
Theorem getPaceOfAging_frozen_horizon_decay
    (year score optimism horizonYear currentYear levMedianYear : R)
    (Hscore : 1 <= score) (Hopt : -10 < optimism)
    (Hhorizon : horizonYear <= IZR (js_round levMedianYear))
    (Hyear : IZR (js_round levMedianYear) <= year) :
  let E := exp (- (year - IZR (js_round levMedianYear)) / REJUV_TAU) in
  let base :=
    getFrailtyMultiplier score
    * getProgressMultiplier horizonYear score 50 optimism horizonYear
        currentYear in
  getPaceOfAging year score 50 optimism horizonYear currentYear levMedianYear
  = base * E - REJUV_EXTRA * (1 - E)
  /\ - REJUV_EXTRA
     < getPaceOfAging year score 50 optimism horizonYear currentYear
         levMedianYear.
Proof.
  intros E base.
  rewrite getPaceOfAging_with_pull by lra.
  set (yLEV := IZR (js_round levMedianYear)) in *.
  assert (Hf1 : getProgressMultiplier year score 50 optimism horizonYear
                  currentYear
                = getProgressMultiplier horizonYear score 50 optimism
                    horizonYear currentYear).
  { unfold getProgressMultiplier. cbv zeta.
    rewrite (Rmin_right year horizonYear) by lra.
    rewrite (Rmin_left horizonYear horizonYear) by lra. reflexivity. }
  assert (Hf2 : getProgressMultiplier yLEV score 50 optimism horizonYear
                  currentYear
                = getProgressMultiplier horizonYear score 50 optimism
                    horizonYear currentYear).
  { unfold getProgressMultiplier. cbv zeta.
    rewrite (Rmin_right yLEV horizonYear) by lra.
    rewrite (Rmin_left horizonYear horizonYear) by lra. reflexivity. }
  rewrite Hf1, Hf2. fold base. fold E.
  assert (Hb0 : 0 < base) by apply frailty_progress_pos.
  assert (Hb1 : base <= 1.5 * 1.20).
  { unfold base.
    pose proof (getFrailtyMultiplier_pos score).
    pose proof (getFrailtyMultiplier_le score Hscore).
    pose proof (getProgressMultiplier_range horizonYear score 50 optimism
                  horizonYear currentYear).
    nra. }
  assert (HE0 : 0 < E) by apply exp_pos.
  assert (HE1 : E <= 1).
  { unfold E, REJUV_TAU. apply exp_nonpos_le_1. lra. }
  unfold REJUV_EXTRA.
  replace (base - (base + 0.20) * (1 - E)) with (base * E - 0.20 * (1 - E))
    by ring.
  assert (Hlo : -0.20 < base * E - 0.20 * (1 - E)) by nra.
  assert (Hhi : base * E - 0.20 * (1 - E) <= 2.00) by nra.
  rewrite (Rmax_right (-0.50)) by lra.
  rewrite Rmin_right by lra.
  split; lra.
Qed.

Lemma getPaceOfAging_frozen_horizon_decay_witness :
  let E := exp (- (2060 - IZR (js_round 2055)) / REJUV_TAU) in
  let base :=
    getFrailtyMultiplier 50
    * getProgressMultiplier 2050 50 50 0 2050 2024 in
  getPaceOfAging 2060 50 50 0 2050 2024 2055
  = base * E - REJUV_EXTRA * (1 - E)
  /\ - REJUV_EXTRA < getPaceOfAging 2060 50 50 0 2050 2024 2055.
Proof.
  apply (getPaceOfAging_frozen_horizon_decay 2060 50 0 2050 2024 2055);
    rewrite ?(js_round_IZR 2055); lra.
Defined.

(** ** Health index *)

(** X17: the health index lies strictly between 0 and 1 and is strictly
    decreasing in biological age. *)
Theorem bioAgeToHealth_decreasing (b1 b2 : R) (H : b1 < b2) :
  0 < bioAgeToHealth b2 /\ bioAgeToHealth b2 < bioAgeToHealth b1
  /\ bioAgeToHealth b1 < 1.
Proof.
  unfold bioAgeToHealth, HEALTH_MIDPOINT_BIOAGE, HEALTH_STEEPNESS.
  set (e1 := exp ((b1 - 72) / 9)). set (e2 := exp ((b2 - 72) / 9)).
  assert (H1 : 0 < e1) by apply exp_pos.
  assert (H12 : e1 < e2) by (apply exp_increasing; lra).
  unfold Rdiv. rewrite !Rmult_1_l.
  repeat split.
  - apply Rinv_0_lt_compat. lra.
  - apply Rinv_lt_contravar; [nra | lra].
  - rewrite <- Rinv_1 at 2. apply Rinv_lt_contravar; lra.
Qed.

Lemma bioAgeToHealth_decreasing_witness :
  0 < bioAgeToHealth 80 /\ bioAgeToHealth 80 < bioAgeToHealth 40
  /\ bioAgeToHealth 40 < 1.
Proof. apply (bioAgeToHealth_decreasing 40 80). lra. Defined.

(** ** The cohort arrays *)

Lemma combine_snoc {A B : Type} (l1 : list A) (l2 : list B) (a : A) (b : B) :
  length l1 = length l2 ->
  combine (l1 ++ [a]) (l2 ++ [b]) = combine l1 l2 ++ [(a, b)].
Proof.
  revert l2. induction l1 as [|x l1 IH]; intros [|y l2] Hl;
    simpl in *; try discriminate; [reflexivity|].
  f_equal. apply IH. lia.
Qed.

Lemma js_last_nth_error {A : Type} (l : list A) (i : nat) :
  S i = length l -> js_last l = nth_error l i.
Proof.
  intros H. unfold js_last. rewrite <- H. simpl. now rewrite Nat.sub_0_r.
Qed.

Lemma stepwise_snoc (f : R -> R -> R) (xs ds : list R) (x d : R) :
  stepwise f xs ds -> length ds = length xs -> js_last xs = Some x ->
  stepwise f (xs ++ [f x d]) (ds ++ [d]).
Proof.
  intros Hs Hlen Hlast i a b Ha Hb.
  destruct (Nat.lt_ge_cases (S i) (length xs)) as [Hi | Hi].
  - rewrite nth_error_app1 in Ha by lia.
    rewrite nth_error_app1 in Hb by lia.
    rewrite nth_error_app1 by lia. eapply Hs; eassumption.
  - assert (Hlt : (S i < length (ds ++ [d]))%nat)
      by (apply nth_error_Some; congruence).
    rewrite length_app in Hlt. simpl in Hlt.
    assert (Hi' : S i = length xs) by lia.
    rewrite nth_error_app2 in Hb by lia.
    replace (S i - length ds)%nat with 0%nat in Hb by lia.
    simpl in Hb. injection Hb as <-.
    rewrite nth_error_app1 in Ha by lia.
    rewrite (js_last_nth_error xs i Hi') in Hlast.
    rewrite Hlast in Ha. injection Ha as <-.
    rewrite nth_error_app2 by lia.
    replace (S i - length xs)%nat with 0%nat by lia. reflexivity.
Qed.

Section CohortArrays.

Variable startAge : Z.
Variables startScore targetScore horizonYear optimism : R.
Variable lifeTable : LifeTable.
Variable currentYear : R.
Variable isProtocol : bool.
Variable progressQuantile : R.

Let step :=
  cohortStep startAge startScore targetScore horizonYear optimism
    lifeTable currentYear isProtocol progressQuantile.
Let loop :=
  cohortLoop startAge startScore targetScore horizonYear optimism
    lifeTable currentYear isProtocol progressQuantile.
Let init :=
  cohortInit startAge startScore targetScore horizonYear optimism
    lifeTable currentYear isProtocol progressQuantile.

Lemma CoherentInv_init : CoherentInv init.
Proof.
  unfold CoherentInv, init, cohortInit. cbv zeta. simpl.
  repeat split; try reflexivity.
  - intros [|i] x d Hx Hd; simpl in Hd; [discriminate|].
    destruct i; discriminate.
  - intros [|i] x d Hx Hd; simpl in Hd; [discriminate|].
    destruct i; discriminate.
Qed.

Lemma CoherentInv_step (a : Z) (st : CohortState) :
  CoherentInv st -> CoherentInv (step a st).
Proof.
  intros (Ha & Hb & Hp & HS & HB & Hh & Hah & Hsv & Hba).
  unfold step, cohortStep. cbv zeta.
  set (year := currentYear + IZR (a - startAge)).
  set (eff := effectiveScoreAt _ _ _ _ _).
  set (p := paceAt _ _ _ _ _ _ _ _).
  set (qFinal := qFinalAt _ _ _ _ _ _ _ _ _ _).
  unfold CoherentInv. simpl.
  repeat split.
  - rewrite !length_app. simpl. lia.
  - rewrite !length_app. simpl. lia.
  - rewrite !length_app. simpl. lia.
  - apply js_last_snoc.
  - apply js_last_snoc.
  - rewrite map_app, Hh. reflexivity.
  - rewrite combine_snoc.
    + rewrite map_app, <- Hah. reflexivity.
    + rewrite Hh, length_map. lia.
  - apply stepwise_snoc; assumption.
  - apply stepwise_snoc; try assumption. congruence.
Qed.

Lemma CoherentInv_loop (n : nat) (a : Z) : CoherentInv (loop n a init).
Proof.
  apply cohortLoop_invariant; [apply CoherentInv_step | apply CoherentInv_init].
Qed.

Lemma cohortLoop_init_survival_length (n : nat) (a : Z) :
  length (cs_survival (loop n a init)) = S n.
Proof.
  unfold loop. rewrite cohortLoop_survival_length. reflexivity.
Qed.

End CohortArrays.

(** X18: the six arrays returned by [simulateCohort] all have the same
    length, one entry for the start age and one per simulated year up to
    age 200: [1 + (200 - startAge)] entries, a single entry when
    [startAge >= 200]. *)
Theorem simulateCohort_array_lengths
    (startAge : Z) (sex : Sex)
    (startScore targetScore horizonYear optimism : R)
    (lifeTable : LifeTable) (currentYear : R) (isProtocol : bool)
    (progressQuantile : R) :
  let res := simulateCohort startAge sex startScore targetScore horizonYear
               optimism lifeTable currentYear isProtocol progressQuantile in
  let n := S (Z.to_nat (MAX_AGE_INTERNAL - startAge)) in
  length (survival res) = n /\ length (annualSurvival res) = n
  /\ length (bioAge res) = n /\ length (health res) = n
  /\ length (aliveHealthy res) = n /\ length (pace res) = n.
Proof.
  intros res n. unfold res, simulateCohort. cbv zeta.
  cbn [survival annualSurvival bioAge health aliveHealthy pace].
  pose proof (CoherentInv_loop startAge startScore targetScore horizonYear
                optimism lifeTable currentYear isProtocol progressQuantile
                (Z.to_nat (MAX_AGE_INTERNAL - startAge)) startAge)
    as (Ha & Hb & Hp & _ & _ & Hh & Hah & _ & _).
  pose proof (cohortLoop_init_survival_length startAge startScore
                targetScore horizonYear optimism lifeTable currentYear
                isProtocol progressQuantile
                (Z.to_nat (MAX_AGE_INTERNAL - startAge)) startAge) as Hs.
  set (st := cohortLoop _ _ _ _ _ _ _ _ _ _ _ _) in *.
  fold n in Hs.
  assert (Hhl : length (cs_health st) = n)
    by (rewrite Hh, length_map; lia).
  repeat split; try lia.
  rewrite Hah, length_map, length_combine. lia.
Qed.

(** X19: in the result of [simulateCohort] the health array is the health
    index of the biological-age array, entry by entry, and the
    alive-and-healthy array is the product of the survival and health
    arrays, entry by entry. *)
Theorem simulateCohort_health_arrays
    (startAge : Z) (sex : Sex)
    (startScore targetScore horizonYear optimism : R)
    (lifeTable : LifeTable) (currentYear : R) (isProtocol : bool)
    (progressQuantile : R) :
  let res := simulateCohort startAge sex startScore targetScore horizonYear
               optimism lifeTable currentYear isProtocol progressQuantile in
  health res = map bioAgeToHealth (bioAge res)
  /\ aliveHealthy res
     = map (fun sh => fst sh * snd sh) (combine (survival res) (health res)).
Proof.
  intros res. unfold res, simulateCohort. cbv zeta.
  cbn [survival bioAge health aliveHealthy].
  pose proof (CoherentInv_loop startAge startScore targetScore horizonYear
                optimism lifeTable currentYear isProtocol progressQuantile
                (Z.to_nat (MAX_AGE_INTERNAL - startAge)) startAge)
    as (_ & _ & _ & _ & _ & Hh & Hah & _ & _).
  split; assumption.
Qed.

(** X20: the arrays of [simulateCohort] obey the step equations of the
    model: each survival entry is the previous one times the annual
    survival stored at the same index, and each biological age is the
    previous one plus the pace stored at the same index. *)
Theorem simulateCohort_recurrences
    (startAge : Z) (sex : Sex)
    (startScore targetScore horizonYear optimism : R)
    (lifeTable : LifeTable) (currentYear : R) (isProtocol : bool)
    (progressQuantile : R) :
  let res := simulateCohort startAge sex startScore targetScore horizonYear
               optimism lifeTable currentYear isProtocol progressQuantile in
  (forall (i : nat) (s a : R),
      nth_error (survival res) i = Some s ->
      nth_error (annualSurvival res) (S i) = Some a ->
      nth_error (survival res) (S i) = Some (s * a))
  /\ (forall (i : nat) (b p : R),
         nth_error (bioAge res) i = Some b ->
         nth_error (pace res) (S i) = Some p ->
         nth_error (bioAge res) (S i) = Some (b + p)).
Proof.
  intros res. unfold res, simulateCohort. cbv zeta.
  cbn [survival annualSurvival bioAge pace].
  pose proof (CoherentInv_loop startAge startScore targetScore horizonYear
                optimism lifeTable currentYear isProtocol progressQuantile
                (Z.to_nat (MAX_AGE_INTERNAL - startAge)) startAge)
    as (_ & _ & _ & _ & _ & _ & _ & Hsv & Hba).
  split; assumption.
Qed.

(** ** Ranges of the cohort arrays and of the expectancies *)

Lemma bioAgeToHealth_range (bioAge : R) : 0 < bioAgeToHealth bioAge < 1.
Proof.
  unfold bioAgeToHealth.
  set (e := exp _). assert (He : 0 < e) by apply exp_pos.
  split.
  - apply Rdiv_lt_0_compat; lra.
  - apply (Rmult_lt_reg_r (1 + e)); [lra|].
    unfold Rdiv. rewrite Rmult_assoc, Rinv_l; lra.
Qed.

Lemma Forall_snoc {A : Type} (P : A -> Prop) (l : list A) (x : A) :
  Forall P l -> P x -> Forall P (l ++ [x]).
Proof. intros Hl Hx. apply Forall_app. split; [exact Hl | now constructor]. Qed.

Lemma Forall_skipn {A : Type} (P : A -> Prop) (n : nat) (l : list A) :
  Forall P l -> Forall P (skipn n l).
Proof.
  revert l. induction n as [|n IH]; intros l Hl; [exact Hl|].
  destruct Hl as [|x l Hx Hl]; [constructor|]. simpl. now apply IH.
Qed.

Lemma skipn_cons_nth {A : Type} (n : nat) (l : list A) (x : A) :
  nth_error l n = Some x -> skipn n l = x :: skipn (S n) l.
Proof.
  revert l. induction n as [|n IH]; intros [|y l] H; simpl in H;
    try discriminate.
  - injection H as ->. reflexivity.
  - simpl. now apply IH.
Qed.

Lemma Rsum_nonneg (l : list R) : Forall (fun s => 0 <= s) l -> 0 <= Rsum l.
Proof.
  induction 1 as [|x l Hx Hl IH]; [rewrite Rsum_nil; lra|].
  rewrite Rsum_cons. lra.
Qed.

Lemma Rsum_le_length (l : list R) :
  Forall (fun s => s <= 1) l -> Rsum l <= INR (length l).
Proof.
  induction 1 as [|x l Hx Hl IH]; [rewrite Rsum_nil; simpl; lra|].
  rewrite Rsum_cons. change (length (x :: l)) with (S (length l)).
  rewrite S_INR. lra.
Qed.

(** The healthspan sum picks some of the survival entries and nothing
    else. *)
Lemma healthspan_fold_bounds (health survival : list R) :
  Forall (fun s => 0 <= s) survival ->
  forall (len start : nat) (acc : R),
    acc
    <= fold_left
         (fun acc idx =>
            match nth_error health idx, nth_error survival idx with
            | Some H_val, Some s =>
                if Rgeb H_val HEALTHSPAN_THRESHOLD then acc + s else acc
            | _, _ => acc
            end)
         (seq start len) acc
    <= acc + Rsum (skipn start survival).
Proof.
  intros Hsv len. induction len as [|len IH]; intros start acc.
  - simpl. pose proof (Rsum_nonneg _ (Forall_skipn _ start _ Hsv)). lra.
  - cbn [seq fold_left].
    pose proof (Rsum_nonneg _ (Forall_skipn _ (S start) _ Hsv)) as Hrest.
    destruct (nth_error survival start) as [s|] eqn:Hs.
    + rewrite (skipn_cons_nth start survival s Hs), Rsum_cons.
      assert (H0 : 0 <= s).
      { rewrite Forall_forall in Hsv. apply Hsv.
        eapply nth_error_In; eassumption. }
      destruct (nth_error health start) as [H_val|].
      * destruct (Rgeb H_val HEALTHSPAN_THRESHOLD).
        -- specialize (IH (S start) (acc + s)). lra.
        -- specialize (IH (S start) acc). lra.
      * specialize (IH (S start) acc). lra.
    + assert (Hnil : skipn start survival = []).
      { apply skipn_all2. now apply nth_error_None. }
      assert (Hnil' : skipn (S start) survival = []).
      { apply skipn_all2. apply nth_error_None in Hs. lia. }
      rewrite Hnil. rewrite Hnil' in *.
      specialize (IH (S start) acc). rewrite Hnil' in IH.
      destruct (nth_error health start); exact IH.
Qed.

Section CohortRanges.

Variable startAge : Z.
Variables startScore targetScore horizonYear optimism : R.
Variable lifeTable : LifeTable.
Variable currentYear : R.
Variable isProtocol : bool.
Variable progressQuantile : R.

Hypothesis qx_probabilities : Forall (fun q => 0 <= q <= 1) (qx lifeTable).

Let RangeP (st : CohortState) : Prop :=
  0 <= cs_S st <= 1
  /\ Forall (fun s => 0 <= s <= 1) (cs_survival st)
  /\ Forall (fun a => 0 <= a <= 1) (cs_annualSurvival st)
  /\ Forall (fun h => 0 <= h <= 1) (cs_health st)
  /\ Forall (fun x => 0 <= x <= 1) (cs_aliveHealthy st).

Lemma cohort_ranges (n : nat) (a : Z) :
  RangeP (cohortLoop startAge startScore targetScore horizonYear optimism
            lifeTable currentYear isProtocol progressQuantile n a
            (cohortInit startAge startScore targetScore horizonYear optimism
               lifeTable currentYear isProtocol progressQuantile)).
Proof.
  apply cohortLoop_invariant.
  - clear a. intros a st (HS & Hsv & Han & Hh & Hah).
    unfold cohortStep. cbv zeta.
    set (year := currentYear + IZR (a - startAge)).
    set (eff := effectiveScoreAt _ _ _ _ _).
    set (p := paceAt _ _ _ _ _ _ _ _).
    pose proof (qFinalAt_range horizonYear optimism lifeTable currentYear
                  isProtocol progressQuantile qx_probabilities
                  year eff p (cs_B st)) as Hq.
    set (qFinal := qFinalAt _ _ _ _ _ _ _ _ _ _) in *.
    pose proof (bioAgeToHealth_range (cs_B st + p)) as HH.
    assert (HS' : 0 <= cs_S st * (1 - qFinal) <= 1) by nra.
    unfold RangeP. simpl.
    repeat apply conj; try apply Forall_snoc; try assumption; try lra.
    nra.
  - unfold RangeP, cohortInit. cbv zeta. simpl.
    pose proof (bioAgeToHealth_range
                  (IZR startAge * getFrailtyMultiplier startScore)) as HH.
    assert (Hq0 : 0 <= orElse (tableLookup lifeTable startAge) 0.001 <= 1).
    { destruct (tableLookup lifeTable startAge) as [q|] eqn:Hl; simpl.
      - apply tableLookup_In in Hl.
        rewrite Forall_forall in qx_probabilities.
        now apply qx_probabilities.
      - lra. }
    repeat apply conj; try (constructor; [|constructor]); lra.
Qed.

End CohortRanges.

(** X21: when the death probabilities of the life table lie in [0,1], no
    entry of the probability-valued arrays leaves the unit interval: every
    survival, annual survival, health index and alive-and-healthy entry is
    in [0,1]. *)
Theorem simulateCohort_ranges
    (startAge : Z) (sex : Sex)
    (startScore targetScore horizonYear optimism : R)
    (lifeTable : LifeTable) (currentYear : R) (isProtocol : bool)
    (progressQuantile : R)
    (Hqx : Forall (fun q => 0 <= q <= 1) (qx lifeTable)) :
  let res := simulateCohort startAge sex startScore targetScore horizonYear
               optimism lifeTable currentYear isProtocol progressQuantile in
  Forall (fun s => 0 <= s <= 1) (survival res)
  /\ Forall (fun a => 0 <= a <= 1) (annualSurvival res)
  /\ Forall (fun h => 0 <= h <= 1) (health res)
  /\ Forall (fun x => 0 <= x <= 1) (aliveHealthy res).
Proof.
  intros res. unfold res, simulateCohort. cbv zeta.
  cbn [survival annualSurvival health aliveHealthy].
  pose proof (cohort_ranges startAge startScore targetScore horizonYear
                optimism lifeTable currentYear isProtocol progressQuantile
                Hqx (Z.to_nat (MAX_AGE_INTERNAL - startAge)) startAge)
    as (_ & Hsv & Han & Hh & Hah).
  repeat split; assumption.
Qed.

Lemma simulateCohort_ranges_witness :
  let res := simulateCohort 35 female 50 75 2050 0
               (mkLifeTable [0; 1; 2]%Z [0.006; 0.001; 0.5] String.EmptyString
                  2021) 2024 true 50 in
  Forall (fun s => 0 <= s <= 1) (survival res)
  /\ Forall (fun a => 0 <= a <= 1) (annualSurvival res)
  /\ Forall (fun h => 0 <= h <= 1) (health res)
  /\ Forall (fun x => 0 <= x <= 1) (aliveHealthy res).
Proof.
  apply (simulateCohort_ranges 35 female 50 75 2050 0
           (mkLifeTable [0; 1; 2]%Z [0.006; 0.001; 0.5] String.EmptyString
              2021) 2024 true 50).
  simpl. repeat constructor; lra.
Defined.

(** X22: when the death probabilities of the life table lie in [0,1], life
    expectancy is at least half a year and at most the number of simulated
    years plus a half, and health expectancy is between -0.5 and life
    expectancy. *)
Theorem simulateCohort_expectancy_bounds
    (startAge : Z) (sex : Sex)
    (startScore targetScore horizonYear optimism : R)
    (lifeTable : LifeTable) (currentYear : R) (isProtocol : bool)
    (progressQuantile : R)
    (Hqx : Forall (fun q => 0 <= q <= 1) (qx lifeTable)) :
  let res := simulateCohort startAge sex startScore targetScore horizonYear
               optimism lifeTable currentYear isProtocol progressQuantile in
  0.5 <= lifeExpectancy res
  /\ lifeExpectancy res
     <= INR (Z.to_nat (MAX_AGE_INTERNAL - startAge)) + 0.5
  /\ -0.5 <= healthExpectancy res
  /\ healthExpectancy res <= lifeExpectancy res.
Proof.
  intros res. unfold res, simulateCohort. cbv zeta.
  cbn [lifeExpectancy healthExpectancy].
  pose proof (cohort_ranges startAge startScore targetScore horizonYear
                optimism lifeTable currentYear isProtocol progressQuantile
                Hqx (Z.to_nat (MAX_AGE_INTERNAL - startAge)) startAge)
    as (_ & Hsv & _).
  pose proof (SurvivalInv_loop startAge startScore targetScore horizonYear
                optimism lifeTable currentYear isProtocol progressQuantile
                Hqx (Z.to_nat (MAX_AGE_INTERNAL - startAge)) startAge)
    as (_ & _ & Hhead & _).
  pose proof (cohortLoop_init_survival_length startAge startScore
                targetScore horizonYear optimism lifeTable currentYear
                isProtocol progressQuantile
                (Z.to_nat (MAX_AGE_INTERNAL - startAge)) startAge) as Hlen.
  set (st := cohortLoop _ _ _ _ _ _ _ _ _ _ _ _) in *.
  set (n := Z.to_nat (MAX_AGE_INTERNAL - startAge)) in *.
  assert (Hnn : Forall (fun s => 0 <= s) (cs_survival st)).
  { eapply Forall_impl; [|exact Hsv]. simpl. intros; lra. }
  assert (Hle1 : Forall (fun s => s <= 1) (cs_survival st)).
  { eapply Forall_impl; [|exact Hsv]. simpl. intros; lra. }
  pose proof (Rsum_le_length _ Hle1) as Hup. rewrite Hlen, S_INR in Hup.
  assert (Hlow : 1 <= Rsum (cs_survival st)).
  { destruct (cs_survival st) as [|s0 rest]; [discriminate|].
    simpl in Hhead. injection Hhead as ->. rewrite Rsum_cons.
    pose proof (Rsum_nonneg rest ltac:(now inversion Hnn)). lra. }
  pose proof (healthspan_fold_bounds (cs_health st) (cs_survival st) Hnn
                (length (cs_aliveHealthy st)) 0 0) as Hhs.
  simpl skipn in Hhs. unfold healthspanSum.
  repeat split; lra.
Qed.

Lemma simulateCohort_expectancy_bounds_witness :
  let res := simulateCohort 35 female 50 75 2050 0
               (mkLifeTable [0; 1; 2]%Z [0.006; 0.001; 0.5] String.EmptyString
                  2021) 2024 true 50 in
  0.5 <= lifeExpectancy res
  /\ lifeExpectancy res <= INR (Z.to_nat (MAX_AGE_INTERNAL - 35)) + 0.5
  /\ -0.5 <= healthExpectancy res
  /\ healthExpectancy res <= lifeExpectancy res.
Proof.
  apply (simulateCohort_expectancy_bounds 35 female 50 75 2050 0
           (mkLifeTable [0; 1; 2]%Z [0.006; 0.001; 0.5] String.EmptyString
              2021) 2024 true 50).
  simpl. repeat constructor; lra.
Defined.

(** ** The baseline (non-protocol) scenario *)

Lemma cohortStep_baseline
    (startAge : Z) (startScore target1 target2 horizonYear optimism : R)
    (lifeTable : LifeTable) (currentYear quantile1 quantile2 : R)
    (a : Z) (st : CohortState) :
  cohortStep startAge startScore target1 horizonYear optimism lifeTable
    currentYear false quantile1 a st
  = cohortStep startAge startScore target2 horizonYear optimism lifeTable
      currentYear false quantile2 a st.
Proof. reflexivity. Qed.

Lemma cohortLoop_baseline
    (startAge : Z) (startScore target1 target2 horizonYear optimism : R)
    (lifeTable : LifeTable) (currentYear quantile1 quantile2 : R)
    (n : nat) (a : Z) (st : CohortState) :
  cohortLoop startAge startScore target1 horizonYear optimism lifeTable
    currentYear false quantile1 n a st
  = cohortLoop startAge startScore target2 horizonYear optimism lifeTable
      currentYear false quantile2 n a st.
Proof.
  revert a st. induction n as [|n IH]; intros a st; cbn [cohortLoop];
    [reflexivity|].
  rewrite (cohortStep_baseline startAge startScore target1 target2
             horizonYear optimism lifeTable currentYear quantile1 quantile2
             a st).
  apply IH.
Qed.

(** X23: without the protocol ([isProtocol = false]) the simulation does
    not depend on the target score or on the progress quantile (it runs on
    the start score and the median quantile), and it is never flagged
    indefinite. *)
Theorem simulateCohort_baseline_ignores_target
    (startAge : Z) (sex : Sex)
    (startScore target1 target2 horizonYear optimism : R)
    (lifeTable : LifeTable) (currentYear quantile1 quantile2 : R) :
  simulateCohort startAge sex startScore target1 horizonYear optimism
    lifeTable currentYear false quantile1
  = simulateCohort startAge sex startScore target2 horizonYear optimism
      lifeTable currentYear false quantile2
  /\ isIndefinite
       (simulateCohort startAge sex startScore target1 horizonYear optimism
          lifeTable currentYear false quantile1) = false.
Proof.
  split.
  - unfold simulateCohort. cbv zeta.
    rewrite (cohortLoop_baseline startAge startScore target1 target2
               horizonYear optimism lifeTable currentYear quantile1
               quantile2).
    reflexivity.
  - unfold simulateCohort. cbv zeta. cbn [isIndefinite].
    destruct (js_last _); [|reflexivity].
    destruct (js_last _); reflexivity.
Qed.

(** ** Probability of achieving LEV, further *)

Lemma levProbLoop_mono (pms ref1 ref2 : list R) :
  Forall (fun p => 0 <= p) pms ->
  Forall2 Rle ref1 ref2 ->
  forall (i : nat) (acc1 acc2 : R),
    acc1 <= acc2 ->
    levProbLoop pms i ref1 acc1 <= levProbLoop pms i ref2 acc2.
Proof.
  intros Hp Hr. induction Hp as [|pmf rest Hpmf Hrest IH];
    intros i acc1 acc2 Hacc; simpl; [exact Hacc|].
  apply IH.
  assert (Hnth : forall k,
             match nth_error ref1 k, nth_error ref2 k with
             | Some s1, Some s2 => s1 <= s2
             | None, None => True
             | _, _ => False
             end).
  { clear - Hr. induction Hr as [|x y l l' Hxy Hl IHl]; intros [|k]; simpl;
      [exact I | exact I | exact Hxy | apply IHl]. }
  specialize (Hnth i).
  destruct (nth_error ref1 i), (nth_error ref2 i); try contradiction; nra.
Qed.

(** X24: the probability of achieving LEV is monotone in the survival
    curve: a curve that is pointwise at least as high gives a probability
    at least as high (for any score, the penalty being a square). *)
Theorem calculateLevProb_monotone_in_survival
    (userAge score optimism horizonYear : R) (lifeTable : LifeTable)
    (currentYear : R) (ref1 ref2 : list R) (Href : Forall2 Rle ref1 ref2) :
  calculateLevProb userAge score optimism horizonYear lifeTable currentYear
    ref1
  <= calculateLevProb userAge score optimism horizonYear lifeTable
       currentYear ref2.
Proof.
  unfold calculateLevProb. cbv zeta.
  pose proof (levProbLoop_mono _ ref1 ref2
                (probMass_nonneg score optimism currentYear) Href
                0%nat 0 0 ltac:(lra)) as Hm.
  destruct (Rltb score 20).
  - assert (Hsq : 0 <= (score / 20) ^ 2) by (simpl; nra). nra.
  - lra.
Qed.

Lemma calculateLevProb_monotone_in_survival_witness :
  calculateLevProb 35 75 0 2050 (mkLifeTable [] [] String.EmptyString 2021)
    2024 [1; 0.5]
  <= calculateLevProb 35 75 0 2050 (mkLifeTable [] [] String.EmptyString 2021)
       2024 [1; 0.9].
Proof.
  apply (calculateLevProb_monotone_in_survival 35 75 0 2050
           (mkLifeTable [] [] String.EmptyString 2021) 2024 [1; 0.5] [1; 0.9]).
  repeat constructor; lra.
Defined.

Lemma levProbLoop_app (pms ref extra : list R) (i : nat) (acc : R) :
  (i + length pms <= length ref)%nat ->
  levProbLoop pms i (ref ++ extra) acc = levProbLoop pms i ref acc.
Proof.
  revert i acc. induction pms as [|pmf rest IH]; intros i acc Hn;
    simpl in *; [reflexivity|].
  rewrite nth_error_app1 by lia.
  apply IH. lia.
Qed.

Lemma probMass_length_le (score optimism currentYear : R) :
  (length (probMass (computeLevDistribution score optimism currentYear))
   <= 121)%nat.
Proof.
  destruct (Rle_dec optimism (-10)) as [H | H].
  - unfold computeLevDistribution. rewrite Rleb_true by exact H. simpl. lia.
  - rewrite probMass_entries by lra. rewrite pmfEntries_length. lia.
Qed.

(** X25: only the first 121 entries of the survival curve matter: what a
    curve of at least 121 entries holds beyond them does not change the
    probability of achieving LEV. *)
Theorem calculateLevProb_reads_121_entries
    (userAge score optimism horizonYear : R) (lifeTable : LifeTable)
    (currentYear : R) (refSurvival extra : list R)
    (Hlen : (121 <= length refSurvival)%nat) :
  calculateLevProb userAge score optimism horizonYear lifeTable currentYear
    (refSurvival ++ extra)
  = calculateLevProb userAge score optimism horizonYear lifeTable
      currentYear refSurvival.
Proof.
  unfold calculateLevProb. cbv zeta.
  rewrite levProbLoop_app; [reflexivity|].
  pose proof (probMass_length_le score optimism currentYear). lia.
Qed.

Lemma calculateLevProb_reads_121_entries_witness :
  calculateLevProb 35 75 0 2050 (mkLifeTable [] [] String.EmptyString 2021)
    2024 (repeat 1 121 ++ [0.5; 0.25])
  = calculateLevProb 35 75 0 2050 (mkLifeTable [] [] String.EmptyString 2021)
      2024 (repeat 1 121).
Proof.
  apply (calculateLevProb_reads_121_entries 35 75 0 2050
           (mkLifeTable [] [] String.EmptyString 2021) 2024 (repeat 1 121)
           [0.5; 0.25]).
  rewrite repeat_length. lia.
Defined.

(** X26: the probability shown for a simulated cohort is within the cap:
    when the life table's death probabilities lie in [0,1] and the score
    passed to [calculateLevProb] is at least -20 (so for every documented
    score), the probability of achieving LEV computed from the survival
    array of [simulateCohort] lies in [0, 0.90]. *)
Theorem calculateLevProb_of_simulated_cohort
    (startAge : Z) (sex : Sex)
    (startScore targetScore horizonYear optimism : R)
    (lifeTable : LifeTable) (currentYear : R) (isProtocol : bool)
    (progressQuantile userAge score : R)
    (Hqx : Forall (fun q => 0 <= q <= 1) (qx lifeTable))
    (Hscore : -20 <= score) :
  let res := simulateCohort startAge sex startScore targetScore horizonYear
               optimism lifeTable currentYear isProtocol progressQuantile in
  0 <= calculateLevProb userAge score optimism horizonYear lifeTable
         currentYear (survival res) <= 0.90.
Proof.
  intros res.
  assert (Href : Forall (fun s => 0 <= s <= 1) (survival res)).
  { unfold res, simulateCohort. cbv zeta. cbn [survival].
    pose proof (cohort_ranges startAge startScore targetScore horizonYear
                  optimism lifeTable currentYear isProtocol progressQuantile
                  Hqx (Z.to_nat (MAX_AGE_INTERNAL - startAge)) startAge)
      as (_ & Hsv & _).
    eapply Forall_impl; [|exact Hsv]. simpl. intros; lra. }
  unfold calculateLevProb. cbv zeta.
  pose proof (levProbLoop_bounds _ (survival res) 0 0
                (probMass_nonneg score optimism currentYear) Href) as Hb.
  pose proof (probMass_sum_le_1 score optimism currentYear) as Hs.
  set (w := levProbLoop _ _ _ _) in *.
  unfold Rltb. destruct (Rlt_dec score 20) as [Hlt | Hge].
  - assert (Hp : 0 <= (score / 20) ^ 2 <= 1) by (simpl; nra). nra.
  - lra.
Qed.

Lemma calculateLevProb_of_simulated_cohort_witness :
  let lifeTable :=
    mkLifeTable [0; 1; 2]%Z [0.006; 0.001; 0.5] String.EmptyString 2021 in
  let res := simulateCohort 35 female 50 75 2050 0 lifeTable 2024 true 50 in
  0 <= calculateLevProb 35 75 0 2050 lifeTable 2024 (survival res) <= 0.90.
Proof.
  apply (calculateLevProb_of_simulated_cohort 35 female 50 75 2050 0
           (mkLifeTable [0; 1; 2]%Z [0.006; 0.001; 0.5] String.EmptyString
              2021) 2024 true 50 35 75).
  - simpl. repeat constructor; lra.
  - lra.
Defined.

(** ** The life-table provider *)

Lemma js_last_cons {A : Type} (x y : A) (l : list A) :
  js_last (x :: y :: l) = js_last (y :: l).
Proof. unfold js_last. simpl. now rewrite Nat.sub_0_r. Qed.

Lemma interpolate_convex (lo hi a1 a2 q1 q2 age : R) :
  a1 < a2 -> a1 <= age <= a2 -> lo <= q1 <= hi -> lo <= q2 <= hi ->
  lo <= q1 + (age - a1) / (a2 - a1) * (q2 - q1) <= hi.
Proof.
  intros Ha Hage H1 H2.
  set (t := (age - a1) / (a2 - a1)).
  assert (Ht : 0 <= t <= 1).
  { unfold t. split.
    - apply Rmult_le_pos; [lra|]. left. apply Rinv_0_lt_compat. lra.
    - apply (Rmult_le_reg_r (a2 - a1)); [lra|].
      unfold Rdiv. rewrite Rmult_assoc, Rinv_l by lra. lra. }
  nra.
Qed.

(** Strictly inside the table the loop finds a bracket, so its value is a
    convex combination of two table entries and the 0.99 that follows the
    loop is not reached. *)
Lemma interpolateLoop_range (lo hi age : R) (data : list (R * R)) :
  agesIncreasing data ->
  Forall (fun aq => lo <= snd aq <= hi) data ->
  forall a0 q0 rest aLast qLast,
    data = (a0, q0) :: rest ->
    js_last data = Some (aLast, qLast) ->
    a0 < age < aLast ->
    lo <= interpolateLoop age data <= hi.
Proof.
  induction data as [|[a1 q1] rest IH];
    intros Hinc Hr a0 q0 rest0 aLast qLast Hd Hlast Hage; [discriminate|].
  injection Hd as <- <- <-.
  destruct rest as [|[a2 q2] rest'].
  - unfold js_last in Hlast. simpl in Hlast. injection Hlast as <- <-. lra.
  - simpl in Hinc. destruct Hinc as [H12 Hinc].
    inversion Hr as [|? ? Hq1 Hr']; subst.
    inversion Hr' as [|? ? Hq2 _]; subst. simpl in Hq1, Hq2.
    cbn [interpolateLoop].
    destruct (Rle_dec age a2) as [Hle | Hgt].
    + rewrite Rgeb_true, Rleb_true by lra. cbn [andb]. cbv zeta.
      apply interpolate_convex; lra.
    + rewrite (Rleb_false age a2) by lra. rewrite andb_false_r.
      rewrite js_last_cons in Hlast.
      eapply (IH Hinc Hr' a2 q2 rest' aLast qLast eq_refl Hlast). lra.
Qed.

Lemma js_last_In {A : Type} (l : list A) (x : A) : js_last l = Some x -> In x l.
Proof. unfold js_last. apply nth_error_In. Qed.

Lemma interpolateQx_range (lo hi age : R) (data : list (R * R)) :
  data <> [] ->
  agesIncreasing data ->
  Forall (fun aq => lo <= snd aq <= hi) data ->
  exists q, interpolateQx age data = Some q /\ lo <= q <= hi.
Proof.
  intros Hne Hinc Hr.
  destruct data as [|[a0 q0] rest]; [contradiction|].
  destruct (js_last ((a0, q0) :: rest)) as [[aLast qLast]|] eqn:Hlast.
  2:{ unfold js_last in Hlast. apply nth_error_None in Hlast.
      simpl in Hlast. lia. }
  assert (Hq0 : lo <= q0 <= hi).
  { rewrite Forall_forall in Hr. apply (Hr (a0, q0)). now left. }
  assert (HqL : lo <= qLast <= hi).
  { rewrite Forall_forall in Hr. apply (Hr (aLast, qLast)).
    now apply js_last_In. }
  unfold interpolateQx. rewrite Hlast.
  destruct (Rle_dec age a0) as [H0 | H0].
  { rewrite Rleb_true by exact H0. eauto. }
  rewrite Rleb_false by lra.
  destruct (Rle_dec aLast age) as [HL | HL].
  { rewrite Rgeb_true by exact HL. eauto. }
  rewrite Rgeb_false by lra.
  eexists. split; [reflexivity|].
  eapply (interpolateLoop_range lo hi age _ Hinc Hr a0 q0 rest aLast qLast
            eq_refl Hlast).
  lra.
Qed.

(** X27: on a non-empty sample table with strictly increasing ages,
    [interpolateQx] returns a value for every age, and that value stays
    within any bounds that hold for all the table's probabilities: the
    interpolation never overshoots (and stays below 0.99 when every table
    entry does). *)
Theorem interpolateQx_within_table_bounds
    (lo hi age : R) (data : list (R * R))
    (Hne : data <> [])
    (Hinc : agesIncreasing data)
    (Hr : Forall (fun aq => lo <= snd aq <= hi) data) :
  exists q, interpolateQx age data = Some q /\ lo <= q <= hi.
Proof. now apply interpolateQx_range. Qed.

Lemma SAMPLE_MALE_QX_shape :
  SAMPLE_MALE_QX <> [] /\ agesIncreasing SAMPLE_MALE_QX
  /\ Forall (fun aq => 0.0001 <= snd aq <= 0.5) SAMPLE_MALE_QX.
Proof.
  split; [discriminate|]. split.
  - cbn [agesIncreasing SAMPLE_MALE_QX]. repeat split; lra.
  - unfold SAMPLE_MALE_QX.
    repeat (apply Forall_cons; [cbn [snd]; lra|]). apply Forall_nil.
Qed.

Lemma SAMPLE_FEMALE_QX_shape :
  SAMPLE_FEMALE_QX <> [] /\ agesIncreasing SAMPLE_FEMALE_QX
  /\ Forall (fun aq => 0.0001 <= snd aq <= 0.5) SAMPLE_FEMALE_QX.
Proof.
  split; [discriminate|]. split.
  - cbn [agesIncreasing SAMPLE_FEMALE_QX]. repeat split; lra.
  - unfold SAMPLE_FEMALE_QX.
    repeat (apply Forall_cons; [cbn [snd]; lra|]). apply Forall_nil.
Qed.

Lemma interpolateQx_within_table_bounds_witness :
  exists q, interpolateQx 65 SAMPLE_MALE_QX = Some q /\ 0.0001 <= q <= 0.5.
Proof.
  apply (interpolateQx_within_table_bounds 0.0001 0.5 65 SAMPLE_MALE_QX).
  - discriminate.
  - cbn [agesIncreasing SAMPLE_MALE_QX]. repeat split; lra.
  - unfold SAMPLE_MALE_QX.
    repeat (apply Forall_cons; [cbn [snd]; lra|]). apply Forall_nil.
Defined.

(** *** The embedded table *)

Lemma fillLoop_spec (lo hi : R) (data : list (R * R)) :
  data <> [] -> agesIncreasing data ->
  Forall (fun aq => lo <= snd aq <= hi) data ->
  forall (n : nat) (a : Z) (agesAcc : list Z) (qxAcc : list R),
  exists qs : list R,
    fillLoop n a data agesAcc qxAcc
    = Some (agesAcc ++ agesFrom n a, qxAcc ++ qs)
    /\ length qs = n /\ Forall (fun q => lo <= q <= hi) qs.
Proof.
  intros Hne Hinc Hr n. induction n as [|n IH]; intros a agesAcc qxAcc.
  - exists []. simpl. rewrite !app_nil_r. repeat split. constructor.
  - destruct (interpolateQx_range lo hi (IZR a) data Hne Hinc Hr)
      as (q & Hq & Hrange).
    destruct (IH (a + 1)%Z (agesAcc ++ [a]) (qxAcc ++ [q]))
      as (qs & Hfill & Hlen & Hqs).
    exists (q :: qs). cbn [fillLoop agesFrom]. rewrite Hq, Hfill.
    rewrite <- !app_assoc. simpl. repeat split.
    + now rewrite Hlen.
    + now constructor.
Qed.

Lemma extrapolateLoop_spec (A B : R) :
  0 < A ->
  forall (n : nat) (a : Z) (agesAcc : list Z) (qxAcc : list R),
  exists qs : list R,
    extrapolateLoop n a A B agesAcc qxAcc
    = (agesAcc ++ agesFrom n a, qxAcc ++ qs)
    /\ length qs = n /\ Forall (fun q => 0 < q <= 0.999) qs.
Proof.
  intros HA n. induction n as [|n IH]; intros a agesAcc qxAcc.
  - exists []. simpl. rewrite !app_nil_r. repeat split. constructor.
  - set (q := Rmin 0.999 (1 - exp (- (A * exp (B * IZR a))))).
    destruct (IH (a + 1)%Z (agesAcc ++ [a]) (qxAcc ++ [q]))
      as (qs & Hloop & Hlen & Hqs).
    exists (q :: qs). cbn [extrapolateLoop agesFrom]. cbv zeta. fold q.
    rewrite Hloop, <- !app_assoc. simpl. repeat split.
    + now rewrite Hlen.
    + constructor; [|exact Hqs].
      assert (HH : 0 < A * exp (B * IZR a))
        by (apply Rmult_lt_0_compat; [exact HA | apply exp_pos]).
      pose proof (exp_increasing (- (A * exp (B * IZR a))) 0 ltac:(lra))
        as He.
      rewrite exp_0 in He. unfold q. cmp_cases.
Qed.

Lemma gompertz_A_pos (q1 B x1 : R) :
  0 < q1 < 1 -> 0 < - ln (1 - q1) / exp (B * x1).
Proof.
  intros Hq.
  pose proof (ln_increasing (1 - q1) 1 ltac:(lra) ltac:(lra)) as Hl.
  rewrite ln_1 in Hl.
  apply Rdiv_lt_0_compat; [lra | apply exp_pos].
Qed.

Lemma embedSampleData_spec (sex : Sex) :
  exists lifeTable : LifeTable,
    embedSampleData sex = Some lifeTable
    /\ ages lifeTable = agesFrom 151 0
    /\ length (qx lifeTable) = 151%nat
    /\ Forall (fun q => 0 < q <= 0.999) (qx lifeTable).
Proof.
  set (data := match sex with
               | male => SAMPLE_MALE_QX
               | female => SAMPLE_FEMALE_QX
               end).
  assert (Hshape : data <> [] /\ agesIncreasing data
                   /\ Forall (fun aq => 0.0001 <= snd aq <= 0.5) data).
  { unfold data. destruct sex;
      [apply SAMPLE_MALE_QX_shape | apply SAMPLE_FEMALE_QX_shape]. }
  destruct Hshape as (Hne & Hinc & Hr).
  destruct (fillLoop_spec 0.0001 0.5 data Hne Hinc Hr 111 0%Z [] [])
    as (qs1 & Hfill & Hlen1 & Hqs1).
  destruct (interpolateQx_range 0.0001 0.5 90 data Hne Hinc Hr)
    as (q1 & Hq1 & Hq1r).
  destruct (interpolateQx_range 0.0001 0.5 110 data Hne Hinc Hr)
    as (q2 & Hq2 & Hq2r).
  set (B := (ln (- ln (1 - q2)) - ln (- ln (1 - q1))) / (110 - 90)).
  set (A := - ln (1 - q1) / exp (B * 90)).
  assert (HA : 0 < A) by (apply gompertz_A_pos; lra).
  destruct (extrapolateLoop_spec A B HA 40 111%Z
              ([] ++ agesFrom 111 0) ([] ++ qs1))
    as (qs2 & Hext & Hlen2 & Hqs2).
  exists (mkLifeTable (([] ++ agesFrom 111 0) ++ agesFrom 40 111)
            (([] ++ qs1) ++ qs2) SampleSource.SAMPLE_SOURCE 2021).
  split; [|split; [|split]].
  - unfold embedSampleData. cbv zeta. fold data.
    rewrite Hfill, Hq1, Hq2. fold B. fold A. rewrite Hext. reflexivity.
  - cbn [ages]. vm_compute. reflexivity.
  - cbn [qx]. rewrite !length_app, Hlen1, Hlen2. reflexivity.
  - cbn [qx]. rewrite app_nil_l. apply Forall_app. split; [|exact Hqs2].
    eapply Forall_impl; [|exact Hqs1]. simpl. intros; lra.
Qed.

Lemma agesFrom_0_151 : agesFrom 151 0 = map Z.of_nat (seq 0 151).
Proof. vm_compute. reflexivity. Qed.

(** X29: for either sex [embedSampleData] returns a table (the reads of
    the sample never fail) with the 151 ages 0, 1, ..., 150 and 151 death
    probabilities, every one of them in (0, 0.999]. *)
Theorem embedSampleData_well_formed (sex : Sex) :
  exists lifeTable : LifeTable,
    embedSampleData sex = Some lifeTable
    /\ ages lifeTable = map Z.of_nat (seq 0 151)
    /\ length (qx lifeTable) = 151%nat
    /\ Forall (fun q => 0 < q <= 0.999) (qx lifeTable).
Proof.
  destruct (embedSampleData_spec sex) as (lt & He & Ha & Hl & Hq).
  exists lt. rewrite <- agesFrom_0_151. auto.
Qed.

Lemma tableLookup_embedded (lifeTable : LifeTable) (idx : Z) :
  ages lifeTable = agesFrom 151 0 ->
  length (qx lifeTable) = 151%nat ->
  Forall (fun q => 0 < q <= 0.999) (qx lifeTable) ->
  (0 <= idx)%Z ->
  exists q, tableLookup lifeTable idx = Some q /\ 0 < q <= 0.999.
Proof.
  intros Ha Hl Hq Hidx. unfold tableLookup. rewrite Ha.
  replace (js_last (agesFrom 151 0)) with (Some 150%Z)
    by (vm_compute; reflexivity).
  unfold js_index.
  destruct (Z.min idx 150 <? 0)%Z eqn:Hneg; [apply Z.ltb_lt in Hneg; lia|].
  destruct (nth_error (qx lifeTable) (Z.to_nat (Z.min idx 150))) as [q|] eqn:Hn.
  - exists q. split; [reflexivity|].
    rewrite Forall_forall in Hq. apply Hq. eapply nth_error_In; eassumption.
  - apply nth_error_None in Hn. lia.
Qed.

(** X30: the engine on the embedded table: for either sex the table of
    [embedSampleData] answers every lookup at a non-negative age index with
    a death probability in (0, 0.999] (no fallback constant is needed
    there), and the survival array that [simulateCohort] computes from it
    stays in [0,1] and never increases, for every choice of the other
    arguments. *)
Theorem simulateCohort_on_embedded_table
    (tableSex : Sex) (startAge : Z) (sex : Sex)
    (startScore targetScore horizonYear optimism currentYear : R)
    (isProtocol : bool) (progressQuantile : R) :
  exists lifeTable : LifeTable,
    embedSampleData tableSex = Some lifeTable
    /\ (forall idx : Z, (0 <= idx)%Z ->
        exists q, tableLookup lifeTable idx = Some q /\ 0 < q <= 0.999)
    /\ Forall (fun s => 0 <= s <= 1)
         (survival (simulateCohort startAge sex startScore targetScore
                      horizonYear optimism lifeTable currentYear isProtocol
                      progressQuantile))
    /\ nonincreasing
         (survival (simulateCohort startAge sex startScore targetScore
                      horizonYear optimism lifeTable currentYear isProtocol
                      progressQuantile)).
Proof.
  destruct (embedSampleData_spec tableSex) as (lt & He & Ha & Hl & Hq).
  exists lt. split; [exact He|]. split.
  { intros idx Hidx. now apply tableLookup_embedded. }
  assert (Hqx : Forall (fun q => 0 <= q <= 1) (qx lt)).
  { eapply Forall_impl; [|exact Hq]. simpl. intros; lra. }
  unfold simulateCohort. cbv zeta. cbn [survival].
  split.
  - pose proof (cohort_ranges startAge startScore targetScore horizonYear
                  optimism lt currentYear isProtocol progressQuantile
                  Hqx (Z.to_nat (MAX_AGE_INTERNAL - startAge)) startAge)
      as (_ & Hsv & _).
    exact Hsv.
  - pose proof (SurvivalInv_loop startAge startScore targetScore horizonYear
                  optimism lt currentYear isProtocol progressQuantile
                  Hqx (Z.to_nat (MAX_AGE_INTERNAL - startAge)) startAge)
      as (_ & _ & _ & Hmono).
    exact Hmono.
Qed.
